(** * OpenAPI spec simplifier: the compaction engine of [openapi-simplifier.tsx]

    A shallow embedding of the functions [parseSpec], [cleanSchemaRef],
    [collectReferencedSchemas], [simplifySchema], [truncateDescription],
    [simplifySpec] and [processSpec], together with the JavaScript built-ins
    they call, followed by the properties of the engine.

    Modelling conventions.
    - A JavaScript string is a sequence of code units; the model keeps Rocq's
      [string], that is the code units below 256.
    - A JavaScript number is modelled on the integers ([Int z]) plus [NaN].
    - An object is the list of its own enumerable properties in enumeration
      order (the order of [Object.entries]).
    - An exception is a value of [exn]; a computation that may throw returns
      a [result].
    - The trees that the parsers return are values of [value]: what a JSON
      text denotes, and [undefined] for an empty YAML document. *)

From Stdlib Require Import String Ascii List ZArith NArith Lia Bool Arith DecimalString.
Import ListNotations.
Local Open Scope string_scope.
Set Warnings "-register-all".

(** ** Values *)

Inductive number : Type :=
| NaN
| Int (z : Z).

Inductive value : Type :=
| VUndefined
| VNull
| VBool (b : bool)
| VNum (n : number)
| VStr (s : string)
| VArr (elements : list value)
| VObj (properties : list (string * value)).

(** ** Exceptions and the result of a computation that may throw *)

Inductive exn : Type :=
| Error (message : string)
| SyntaxError (message : string)
| TypeError (message : string).

(** [err.message] *)
Definition message (e : exn) : string :=
  match e with
  | Error m | SyntaxError m | TypeError m => m
  end.

Inductive result (A : Type) : Type :=
| Return (a : A)
| Throw (e : exn).

Arguments Return {A} a.
Arguments Throw {A} e.

Definition bind {A B : Type} (c : result A) (k : A -> result B) : result B :=
  match c with
  | Return a => k a
  | Throw e => Throw e
  end.

Notation "x <- c ;; k" := (bind c (fun x => k))
  (at level 61, c at next level, right associativity).

(** A loop over a list whose body may throw: the first exception ends it. *)
Fixpoint forEach {A S : Type} (body : S -> A -> result S) (l : list A) (s : S)
  : result S :=
  match l with
  | [] => Return s
  | x :: l' => s' <- body s x ;; forEach body l' s'
  end.

(** [Array.prototype.map] with a callback that may throw. *)
Fixpoint mapM {A B : Type} (f : A -> result B) (l : list A) : result (list B) :=
  match l with
  | [] => Return []
  | x :: l' => y <- f x ;; ys <- mapM f l' ;; Return (y :: ys)
  end.

(** [Array.prototype.filter] with a callback that may throw. *)
Fixpoint filterM {A : Type} (f : A -> result bool) (l : list A) : result (list A) :=
  match l with
  | [] => Return []
  | x :: l' =>
      b <- f x ;; ys <- filterM f l' ;; Return (if b then x :: ys else ys)
  end.

(** ** Strings *)

(** White space as [String.prototype.trim] and the regular expression class
    [\s] see it, on code units below 256: TAB, LF, VT, FF, CR, SP, NBSP. *)
Definition is_whitespace (c : ascii) : bool :=
  let n := nat_of_ascii c in
  (((9 <=? n) && (n <=? 13)) || (n =? 32) || (n =? 160))%nat.

Fixpoint trimStart (s : string) : string :=
  match s with
  | String c s' => if is_whitespace c then trimStart s' else s
  | EmptyString => EmptyString
  end.

Fixpoint trimEnd (s : string) : string :=
  match s with
  | String c s' =>
      match trimEnd s' with
      | EmptyString => if is_whitespace c then EmptyString else String c EmptyString
      | t => String c t
      end
  | EmptyString => EmptyString
  end.

(** [s.trim()] *)
Definition trim (s : string) : string := trimEnd (trimStart s).

(** [s.replace(/\s+/g, ' ')]: every maximal run of white space becomes one
    space. [in_run] tells that the previous code unit was white space. *)
Fixpoint replace_whitespace_runs_from (in_run : bool) (s : string) : string :=
  match s with
  | String c s' =>
      if is_whitespace c
      then if in_run then replace_whitespace_runs_from true s'
           else String " " (replace_whitespace_runs_from true s')
      else String c (replace_whitespace_runs_from false s')
  | EmptyString => EmptyString
  end.

Definition replace_whitespace_runs (s : string) : string :=
  replace_whitespace_runs_from false s.

(** [s.startsWith(p)] *)
Definition startsWith (s p : string) : bool := String.prefix p s.

Fixpoint drop (n : nat) (s : string) : string :=
  match n, s with
  | S n', String _ s' => drop n' s'
  | _, _ => s
  end.

(** [s.replace(pat, rep)] with a string pattern: the first occurrence of
    [pat] is replaced.  The program only uses the replacement [''], so the
    [$] patterns of a replacement string do not arise. *)
Fixpoint replace (s pat rep : string) : string :=
  if String.prefix pat s then rep ++ drop (String.length pat) s
  else match s with
       | String c s' => String c (replace s' pat rep)
       | EmptyString => EmptyString
       end.

Definition lower (c : ascii) : ascii :=
  let n := nat_of_ascii c in
  if (((65 <=? n) && (n <=? 90))
      || ((192 <=? n) && (n <=? 222) && negb (n =? 215)))%nat
  then ascii_of_nat (n + 32) else c.

(** [s.toLowerCase()] *)
Fixpoint toLowerCase (s : string) : string :=
  match s with
  | String c s' => String (lower c) (toLowerCase s')
  | EmptyString => EmptyString
  end.

(** [list.includes(s)] on an array of strings *)
Definition includes (l : list string) (s : string) : bool :=
  existsb (String.eqb s) l.

(** ** Numbers *)

Definition string_of_nat (n : nat) : string :=
  NilEmpty.string_of_uint (Nat.to_uint n).

Definition string_of_Z (z : Z) : string :=
  NilZero.string_of_int (Z.to_int z).

(** [String(n)] on a number: the decimal digits of the integer.  This is
    what JavaScript prints for the integers below 10^21 in magnitude (it
    prints the larger ones in exponent form). *)
Definition number_to_string (n : number) : string :=
  match n with
  | NaN => "NaN"
  | Int z => string_of_Z z
  end.

Definition digits_to_Z (s : string) : option Z :=
  match s with
  | EmptyString => None
  | _ => option_map (fun u => Z.of_N (N.of_uint u)) (NilEmpty.uint_of_string s)
  end.

(** [Number(s)] on a string: white space is trimmed, the empty string is 0,
    an optionally signed run of decimal digits is that integer, and anything
    else is [NaN].  This is JavaScript's result on the texts that are blank,
    that are a signed run of digits denoting an integer below 2^53 in
    magnitude, or that are no numeric literal at all.  A literal with a
    fraction, an exponent, a radix prefix, [Infinity], or more digits than a
    double holds denotes a number outside the integer model, and the model
    is not exact there; of the program only the [codes] of a descriptor
    depend on it. *)
Definition Number (s : string) : number :=
  match trim s with
  | EmptyString => Int 0
  | String "+" d => match digits_to_Z d with Some z => Int z | None => NaN end
  | String "-" d => match digits_to_Z d with Some z => Int (- z) | None => NaN end
  | d => match digits_to_Z d with Some z => Int z | None => NaN end
  end.

Definition isNaN (n : number) : bool :=
  match n with
  | NaN => true
  | Int _ => false
  end.

(** ** Operators on values *)

(** [!!v] *)
Definition truthy (v : value) : bool :=
  match v with
  | VUndefined | VNull => false
  | VBool b => b
  | VNum NaN => false
  | VNum (Int z) => negb (z =? 0)%Z
  | VStr s => negb (s =? "")
  | VArr _ | VObj _ => true
  end.

(** [typeof v] *)
Definition typeof (v : value) : string :=
  match v with
  | VUndefined => "undefined"
  | VBool _ => "boolean"
  | VNum _ => "number"
  | VStr _ => "string"
  | VNull | VArr _ | VObj _ => "object"
  end.

Definition nullish (v : value) : bool :=
  match v with
  | VUndefined | VNull => true
  | _ => false
  end.

(** [Array.isArray(v)] *)
Definition isArray (v : value) : bool :=
  match v with
  | VArr _ => true
  | _ => false
  end.

(** [a || b] *)
Definition or_else (a b : value) : value := if truthy a then a else b.

(** [v === 'literal'] *)
Definition is_string (v : value) (lit : string) : bool :=
  match v with
  | VStr s => s =? lit
  | _ => false
  end.

(** ** Properties *)

Fixpoint assoc {A : Type} (key : string) (kvs : list (string * A)) : option A :=
  match kvs with
  | [] => None
  | (k, x) :: rest => if k =? key then Some x else assoc key rest
  end.

Fixpoint indexed {A : Type} (i : nat) (l : list A) : list (string * A) :=
  match l with
  | [] => []
  | x :: l' => (string_of_nat i, x) :: indexed (S i) l'
  end.

Definition code_units (s : string) : list value :=
  map (fun c => VStr (String c EmptyString)) (list_ascii_of_string s).

(** The own enumerable string-keyed properties of a value that is neither
    [null] nor [undefined], in enumeration order: the members of an object,
    the elements of an array under their indices, the code units of a
    string under theirs; a number or a boolean has none. *)
Definition own_entries (v : value) : list (string * value) :=
  match v with
  | VObj kvs => kvs
  | VArr xs => indexed 0 xs
  | VStr s => indexed 0 (code_units s)
  | _ => []
  end.

(** [v[key]] for a [v] that is neither [null] nor [undefined].

    Own properties only.  No name the program reads with a fixed key is a
    member of a built-in prototype, so the read is exact for those.  The one
    computed read, [schemas[schemaName]], may in JavaScript find an inherited
    member: a method, which is a function and which [JSON.stringify] leaves
    out of the output, or the prototype itself under [__proto__], whose
    compaction is written back to [__proto__] and adds no property.  Reading
    such a name as [undefined] therefore gives the same serialized output. *)
Definition get (v : value) (key : string) : value :=
  match assoc key (own_entries v) with
  | Some x => x
  | None =>
      match v with
      | VArr xs => if key =? "length" then VNum (Int (Z.of_nat (List.length xs)))
                   else VUndefined
      | VStr s => if key =? "length" then VNum (Int (Z.of_nat (String.length s)))
                  else VUndefined
      | _ => VUndefined
      end
  end.

(** [v.key]: reading a property of [null] or [undefined] throws. *)
Definition prop (v : value) (key : string) : result value :=
  match v with
  | VUndefined =>
      Throw (TypeError ("Cannot read properties of undefined (reading '" ++ key ++ "')"))
  | VNull =>
      Throw (TypeError ("Cannot read properties of null (reading '" ++ key ++ "')"))
  | _ => Return (get v key)
  end.

(** [v?.key] and [v?.[key]] *)
Definition opt (v : value) (key : string) : value :=
  if nullish v then VUndefined else get v key.

(** [Object.entries(v)], [Object.keys(v)], [Object.values(v)] *)
Definition Object_entries (v : value) : result (list (string * value)) :=
  if nullish v then Throw (TypeError "Cannot convert undefined or null to object")
  else Return (own_entries v).

Definition Object_keys (v : value) : result (list string) :=
  es <- Object_entries v ;; Return (map fst es).

Definition Object_values (v : value) : result (list value) :=
  es <- Object_entries v ;; Return (map snd es).

(** The integer-index keys of an ordinary object: the canonical decimal
    strings of the integers below 2^32 - 1.  They are enumerated first,
    in ascending order. *)
Definition array_index (key : string) : option N :=
  match NilEmpty.uint_of_string key with
  | Some u =>
      let n := N.of_uint u in
      if (NilEmpty.string_of_uint (N.to_uint n) =? key) && (n <? 4294967295)%N
      then Some n else None
  | None => None
  end.

Fixpoint update (key : string) (v : value) (kvs : list (string * value))
  : list (string * value) :=
  match kvs with
  | [] => []
  | (k, x) :: rest =>
      if k =? key then (k, v) :: rest else (k, x) :: update key v rest
  end.

Fixpoint insert_index (n : N) (key : string) (v : value)
  (kvs : list (string * value)) : list (string * value) :=
  match kvs with
  | [] => [(key, v)]
  | (k, x) :: rest =>
      match array_index k with
      | Some m => if (m <? n)%N then (k, x) :: insert_index n key v rest
                  else (key, v) :: kvs
      | None => (key, v) :: kvs
      end
  end.

(** [o[key] = v] on an object the program created with [{}]: a present key
    keeps its place, a new integer-index key is placed in ascending order
    before the other keys, another new key goes last.  Writing [__proto__]
    reaches the accessor of [Object.prototype] and creates no property. *)
Definition obj_set (o : list (string * value)) (key : string) (v : value)
  : list (string * value) :=
  if key =? "__proto__" then o
  else match assoc key o with
       | Some _ => update key v o
       | None =>
           match array_index key with
           | Some n => insert_index n key v o
           | None => o ++ [(key, v)]
           end
       end.

(** ** Conversion to string *)

(** [String(v)], as a template literal and [join] apply it.  An object with
    an own [toString] member (which, coming from a parser, is not callable)
    cannot be converted; any other object prints as [[object Object]]; an
    array prints its elements joined with commas. *)
Fixpoint ToString (v : value) : result string :=
  match v with
  | VUndefined => Return "undefined"
  | VNull => Return "null"
  | VBool true => Return "true"
  | VBool false => Return "false"
  | VNum n => Return (number_to_string n)
  | VStr s => Return s
  | VArr xs =>
      (fix joined (l : list value) : result string :=
         match l with
         | [] => Return ""
         | x :: l' =>
             s <- (if nullish x then Return "" else ToString x) ;;
             match l' with
             | [] => Return s
             | _ => r <- joined l' ;; Return (s ++ "," ++ r)
             end
         end) xs
  | VObj kvs =>
      match assoc "toString" kvs with
      | Some _ => Throw (TypeError "Cannot convert object to primitive value")
      | None => Return "[object Object]"
      end
  end.

(** [xs.join(sep)] *)
Fixpoint join (sep : string) (xs : list value) : result string :=
  match xs with
  | [] => Return ""
  | x :: l' =>
      s <- (if nullish x then Return "" else ToString x) ;;
      match l' with
      | [] => Return s
      | _ => r <- join sep l' ;; Return (s ++ sep ++ r)
      end
  end.

(** * The simplifier *)

Definition schema_prefix : string := "#/components/schemas/".

(** [cleanSchemaRef] *)
Definition cleanSchemaRef (ref : value) : value :=
  match ref with
  | VStr r => if negb (truthy ref) then ref else VStr (replace r schema_prefix "")
  | _ => ref
  end.

(** ** [collectReferencedSchemas] *)

(** [refs.add(name)] on a [Set]: insertion order, no duplicates. *)
Definition set_add (refs : list string) (name : string) : list string :=
  if includes refs name then refs else refs ++ [name].

Definition addRef (ref : value) (refs : list string) : list string :=
  match ref with
  | VStr r =>
      if truthy ref && startsWith r schema_prefix
      then set_add refs (replace r schema_prefix "")
      else refs
  | _ => refs
  end.

(** The nesting depth of a value bounds the recursion of the two walks. *)
Fixpoint depth (v : value) : nat :=
  match v with
  | VArr xs => S (fold_right (fun x d => Nat.max (depth x) d) 0 xs)
  | VObj kvs => S (fold_right (fun kv d => Nat.max (depth (snd kv)) d) 0 kvs)
  | _ => 0
  end.

(** The body of the loop of [walkObject] over [Object.values(obj)]:
    an array is visited element by element, another object is visited
    itself. [walk] is [walkObject]. *)
Definition walkValue (walk : value -> list string -> list string)
  (refs : list string) (value : value) : list string :=
  match value with
  | VArr xs => fold_left (fun refs x => walk x refs) xs refs
  | _ => if typeof value =? "object" then walk value refs else refs
  end.

(** The body of [walkObject], the set [refs] passed along; [walk] stands
    for the recursive calls. *)
Definition walkObject_body (walk : value -> list string -> list string)
  (obj : value) (refs : list string) : list string :=
  if negb (truthy obj) || negb (typeof obj =? "object") then refs
  else
    let refs :=
      if truthy (get obj "$ref") then addRef (get obj "$ref") refs else refs in
    fold_left (walkValue walk) (map snd (own_entries obj)) refs.

(** [walkObject] by recursion on [fuel], a bound on the nesting that is
    followed; [walkObject] below gives it more than the depth of the value,
    and [walkObject_unfold] shows that it then satisfies the recursive
    equation of the source. *)
Fixpoint walkObject_rec (fuel : nat) (obj : value) (refs : list string)
  : list string :=
  match fuel with
  | 0 => refs
  | S fuel' => walkObject_body (walkObject_rec fuel') obj refs
  end.

Definition walkObject (obj : value) (refs : list string) : list string :=
  walkObject_rec (S (depth obj)) obj refs.

Definition seedSchemas : list string :=
  ["Error"; "Granularity"; "AggregationFunction"; "ResponseFormat"].

Definition collectReferencedSchemas (spec : value) : result (list string) :=
  paths <- prop spec "paths" ;;
  let refs := if truthy paths then walkObject paths [] else [] in
  components <- prop spec "components" ;;
  Return
    (fold_left
       (fun refs schema =>
          if truthy (opt (opt components "schemas") schema)
          then set_add refs schema else refs)
       seedSchemas refs).

(** ** [simplifySchema] *)

Definition simplifyProperty (props : list (string * value)) (key : string)
  (simplifiedProp : value) : list (string * value) :=
  match simplifiedProp with
  | VStr t => obj_set props (t ++ " " ++ key) (VBool true)
  | _ => obj_set props key simplifiedProp
  end.

(** The body of [simplifySchema]; [compact] stands for the recursive
    calls. *)
Definition simplifySchema_body (compact : value -> result value) (schema : value)
  : result value :=
  if negb (truthy schema) || negb (typeof schema =? "object") then Return schema
  else
    let keys := map fst (own_entries schema) in
    if truthy (get schema "type") && (List.length keys =? 1)%nat
    then Return (get schema "type")
    else if truthy (get schema "type") && truthy (get schema "format")
            && (List.length keys =? 2)%nat
    then
      t <- ToString (get schema "type") ;;
      f <- ToString (get schema "format") ;;
      Return (VStr (t ++ "(" ++ f ++ ")"))
    else
      let simplified := [] in
      let simplified :=
        if truthy (get schema "type")
        then obj_set simplified "type" (get schema "type") else simplified in
      let simplified :=
        if truthy (get schema "format")
        then obj_set simplified "format" (get schema "format") else simplified in
      let simplified :=
        if truthy (get schema "enum")
        then obj_set simplified "enum" (get schema "enum") else simplified in
      let simplified :=
        if truthy (get schema "required")
        then obj_set simplified "required" (get schema "required")
        else simplified in
      let simplified :=
        if truthy (get schema "$ref")
        then obj_set simplified "$ref" (cleanSchemaRef (get schema "$ref"))
        else simplified in
      simplified <-
        (if truthy (get schema "properties")
         then
           props <-
             forEach
               (fun props kp =>
                  simplifiedProp <- compact (snd kp) ;;
                  Return (simplifyProperty props (fst kp) simplifiedProp))
               (own_entries (get schema "properties")) [] ;;
           Return (obj_set simplified "properties" (VObj props))
         else Return simplified) ;;
      simplified <-
        (if truthy (get schema "items")
         then
           items <- compact (get schema "items") ;;
           Return (obj_set simplified "items" items)
         else Return simplified) ;;
      Return (VObj simplified).

(** [simplifySchema] by recursion on [fuel], a bound on the nesting that is
    followed; [simplifySchema] below gives it more than the depth of the
    schema, and [simplifySchema_unfold] shows that it then satisfies the
    recursive equation of the source. *)
Fixpoint simplifySchema_rec (fuel : nat) (schema : value) : result value :=
  match fuel with
  | 0 => Return schema
  | S fuel' => simplifySchema_body (simplifySchema_rec fuel') schema
  end.

Definition simplifySchema (schema : value) : result value :=
  simplifySchema_rec (S (depth schema)) schema.

(** ** [truncateDescription] *)

Definition truncateDescription (desc : value) (maxLength : nat) : value :=
  match desc with
  | VStr d =>
      if negb (truthy desc) then VUndefined
      else
        let cleaned := trim (replace_whitespace_runs d) in
        if (String.length cleaned <=? maxLength)%nat then VStr cleaned
        else VStr (substring 0 maxLength cleaned ++ "...")
  | _ => VUndefined
  end.

(** ** [simplifySpec] *)

Definition http_methods : list string :=
  ["get"; "post"; "put"; "patch"; "delete"; "head"; "options"].

(** [v === false] *)
Definition is_false (v : value) : bool :=
  match v with
  | VBool false => true
  | _ => false
  end.

(** [`${p.name}:${p.schema?.type || p.type || 'unknown'}`], then the mark of
    an optional parameter. *)
Definition paramStr (p : value) : result string :=
  name <- prop p "name" ;;
  n <- ToString name ;;
  schema <- prop p "schema" ;;
  ty <- (if truthy (opt schema "type") then Return (opt schema "type")
         else t <- prop p "type" ;; Return (or_else t (VStr "unknown"))) ;;
  t <- ToString ty ;;
  required <- prop p "required" ;;
  Return (if is_false required then n ++ ":" ++ t ++ "?" else n ++ ":" ++ t).

Definition pathParamStr (p : value) : result string := paramStr p.

Definition queryParamStr (p : value) : result string :=
  s <- paramStr p ;;
  schema <- prop p "schema" ;;
  s <- (if truthy (opt schema "format")
        then f <- ToString (get schema "format") ;; Return (s ++ "(" ++ f ++ ")")
        else Return s) ;;
  if truthy (opt schema "enum")
  then match get schema "enum" with
       | VArr vs => j <- join "|" vs ;; Return (s ++ "[" ++ j ++ "]")
       | _ => Throw (TypeError "p.schema.enum.join is not a function")
       end
  else Return s.

(** [parameters.filter(p => p.in === place)] *)
Definition params_in (place : string) (parameters : list value)
  : result (list value) :=
  filterM (fun p => i <- prop p "in" ;; Return (is_string i place)) parameters.

(** The body of the inner loop of [simplifySpec], after the test of the
    method: the descriptor of one operation. *)
Definition endpointOf (method path : string) (operation : value) : result value :=
  let endpoint := [("m", VStr (toLowerCase method)); ("p", VStr path)] in
  summary <- prop operation "summary" ;;
  text <- (if truthy summary then Return summary else prop operation "description") ;;
  let desc := truncateDescription text 100 in
  let endpoint := if truthy desc then obj_set endpoint "desc" desc else endpoint in
  parameters <- prop operation "parameters" ;;
  endpoint <-
    (if truthy parameters
     then
       match parameters with
       | VArr ps =>
           pathParams <- params_in "path" ps ;;
           queryParams <- params_in "query" ps ;;
           endpoint <-
             (if negb (List.length pathParams =? 0)%nat
              then pp <- mapM pathParamStr pathParams ;;
                   Return (obj_set endpoint "pp" (VArr (map VStr pp)))
              else Return endpoint) ;;
           if negb (List.length queryParams =? 0)%nat
           then qp <- mapM queryParamStr queryParams ;;
                Return (obj_set endpoint "qp" (VArr (map VStr qp)))
           else Return endpoint
       | _ => Throw (TypeError "operation.parameters.filter is not a function")
       end
     else Return endpoint) ;;
  requestBody <- prop operation "requestBody" ;;
  endpoint <-
    (if truthy requestBody
     then
       content <- prop requestBody "content" ;;
       let jsonContent := opt content "application/json" in
       if truthy (opt (opt jsonContent "schema") "$ref")
       then Return (obj_set endpoint "req"
                      (cleanSchemaRef (get (get jsonContent "schema") "$ref")))
       else Return endpoint
     else Return endpoint) ;;
  responses <- prop operation "responses" ;;
  let okResponse := or_else (opt responses "200") (opt responses "201") in
  let schema := opt (opt (opt okResponse "content") "application/json") "schema" in
  let endpoint :=
    if truthy (opt schema "$ref")
    then obj_set endpoint "res" (cleanSchemaRef (get schema "$ref"))
    else endpoint in
  keys <- Object_keys (or_else responses (VObj [])) ;;
  let codes := filter (fun c => negb (isNaN c)) (map Number keys) in
  Return (VObj (obj_set endpoint "codes" (VArr (map VNum codes)))).

(** The two loops over [spec.paths]. *)
Definition operationsOf (path : string) (pathItem : value) (endpoints : list value)
  : result (list value) :=
  operations <- Object_entries pathItem ;;
  forEach
    (fun endpoints mo =>
       if negb (includes http_methods (fst mo)) then Return endpoints
       else endpoint <- endpointOf (fst mo) path (snd mo) ;;
            Return (endpoints ++ [endpoint])%list)
    operations endpoints.

Definition endpointsOf (paths : value) : result (list value) :=
  if truthy paths
  then
    items <- Object_entries paths ;;
    forEach (fun endpoints pi => operationsOf (fst pi) (snd pi) endpoints) items []
  else Return [].

(** The loop that compacts the referenced schemas. *)
Definition schemasOf (schemas : value) (referencedSchemas : list string)
  : result (list (string * value)) :=
  forEach
    (fun out schemaName =>
       if truthy (get schemas schemaName)
       then s <- simplifySchema (get schemas schemaName) ;;
            Return (obj_set out schemaName s)
       else Return out)
    referencedSchemas [].

Definition simplifySpec (spec : value) : result value :=
  let simplified := [] in
  servers <- prop spec "servers" ;;
  host <- prop spec "host" ;;
  let simplified :=
    if truthy (opt (opt servers "0") "url")
    then obj_set simplified "host" (get (get servers "0") "url")
    else if truthy host then obj_set simplified "host" host else simplified in
  components <- prop spec "components" ;;
  securityDefinitions <- prop spec "securityDefinitions" ;;
  let secSchemes := or_else (opt components "securitySchemes") securityDefinitions in
  simplified <-
    (if truthy secSchemes
     then keys <- Object_keys secSchemes ;;
          Return (obj_set simplified "sec" (VArr (map VStr keys)))
     else Return simplified) ;;
  paths <- prop spec "paths" ;;
  endpoints <- endpointsOf paths ;;
  let simplified := obj_set simplified "endpoints" (VArr endpoints) in
  referencedSchemas <- collectReferencedSchemas spec ;;
  if negb (List.length referencedSchemas =? 0)%nat && truthy (opt components "schemas")
  then
    schemas <- schemasOf (get components "schemas") referencedSchemas ;;
    Return (VObj (obj_set simplified "schemas" (VObj schemas)))
  else Return (VObj simplified).

(** * The pipeline: [parseSpec] and [processSpec] *)

(** The state of the component. [yamlParser] is [None] until the parser has
    been loaded, then the [load] function of the loaded parser. *)
Record State : Type := mkState {
  inputSpec : string;
  outputSpec : string;
  error : string;
  isProcessing : bool;
  yamlParser : option (string -> result value)
}.

Definition setOutputSpec (v : string) (st : State) : State :=
  mkState (inputSpec st) v (error st) (isProcessing st) (yamlParser st).

Definition setError (v : string) (st : State) : State :=
  mkState (inputSpec st) (outputSpec st) v (isProcessing st) (yamlParser st).

Definition setIsProcessing (v : bool) (st : State) : State :=
  mkState (inputSpec st) (outputSpec st) (error st) v (yamlParser st).

Section Pipeline.

(** The two codecs of the host, [JSON.parse] and
    [JSON.stringify(_, null, 0)]. *)
Variable JSON_parse : string -> result value.
Variable JSON_stringify : value -> string.

Definition parseSpec (yaml : option (string -> result value)) (text : string)
  : result value :=
  match JSON_parse text with
  | Return v => Return v
  | Throw _ =>
      match yaml with
      | None => Throw (Error "YAML parser not loaded yet")
      | Some load =>
          match load text with
          | Return v => Return v
          | Throw yamlError =>
              Throw (Error ("Invalid JSON or YAML format: " ++ message yamlError))
          end
      end
  end.

Definition processSpec (st : State) : State :=
  if trim (inputSpec st) =? "" then setError "" (setOutputSpec "" st)
  else
    match yamlParser st with
    | None => setError "YAML parser not loaded yet, please wait..." st
    | Some _ =>
        let st := setError "" (setIsProcessing true st) in
        let st :=
          match
            (parsed <- parseSpec (yamlParser st) (inputSpec st) ;;
             simplified <- simplifySpec parsed ;;
             Return (JSON_stringify simplified))
          with
          | Return minified => setOutputSpec minified st
          | Throw err =>
              setOutputSpec "" (setError ("Error processing spec: " ++ message err) st)
          end in
        setIsProcessing false st
    end.

End Pipeline.

(** * Vocabulary of the properties *)

(** The text consists of white space only (the empty text included). *)
Fixpoint all_whitespace (s : string) : bool :=
  match s with
  | String c s' => is_whitespace c && all_whitespace s'
  | EmptyString => true
  end.

(** The text holds no white space. *)
Fixpoint no_whitespace (s : string) : bool :=
  match s with
  | String c s' => negb (is_whitespace c) && no_whitespace s'
  | EmptyString => true
  end.

(** [name] is the stripped target of an internal-schema [$ref] that sits on
    an object at or below [v]. *)
Inductive Referenced : value -> string -> Prop :=
| Referenced_here kvs r :
    assoc "$ref" kvs = Some (VStr r) ->
    startsWith r schema_prefix = true ->
    Referenced (VObj kvs) (replace r schema_prefix "")
| Referenced_member kvs k v name :
    In (k, v) kvs -> Referenced v name -> Referenced (VObj kvs) name
| Referenced_element xs x name :
    In x xs -> Referenced x name -> Referenced (VArr xs) name.

(** The (path, method) pairs of a document whose method key is, as written,
    one of the seven recognized names, in iteration order. *)
Definition recognized (mo : string * value) : bool :=
  includes http_methods (fst mo).

Definition pairs_under (paths : value) : list (string * string) :=
  if truthy paths
  then
    flat_map
      (fun pi =>
         map (fun mo => (fst pi, fst mo)) (filter recognized (own_entries (snd pi))))
      (own_entries paths)
  else [].

Definition recognized_pairs (spec : value) : list (string * string) :=
  pairs_under (get spec "paths").

(** The keys of a value, as [Object.keys] lists them. *)
Definition keys_of (v : value) : list string := map fst (own_entries v).

(** An example host, used to run the pipeline on concrete inputs: a
    [JSON.parse] that knows three texts and a [JSON.stringify]. *)
Module Host.

Definition quote : string := String (ascii_of_nat 34) EmptyString.

Definition hex_digit (n : nat) : ascii :=
  ascii_of_nat (if (n <? 10)%nat then 48 + n else 87 + n).

Definition escape (c : ascii) : string :=
  let n := nat_of_ascii c in
  if (n =? 34)%nat then "\" ++ quote
  else if (n =? 92)%nat then "\\"
  else if (n =? 8)%nat then "\b"
  else if (n =? 9)%nat then "\t"
  else if (n =? 10)%nat then "\n"
  else if (n =? 12)%nat then "\f"
  else if (n =? 13)%nat then "\r"
  else if (n <? 32)%nat
       then "\u00" ++ String (hex_digit (n / 16)) (String (hex_digit (n mod 16)) "")
       else String c "".

Fixpoint escaped (s : string) : string :=
  match s with
  | String c s' => escape c ++ escaped s'
  | EmptyString => EmptyString
  end.

Definition quoted (s : string) : string := quote ++ escaped s ++ quote.

Fixpoint stringify (v : value) : string :=
  match v with
  | VUndefined | VNull | VNum NaN => "null"
  | VBool true => "true"
  | VBool false => "false"
  | VNum (Int z) => string_of_Z z
  | VStr s => quoted s
  | VArr xs =>
      "[" ++
      (fix elements (l : list value) : string :=
         match l with
         | [] => ""
         | x :: l' =>
             stringify x ++ match l' with [] => "" | _ => "," ++ elements l' end
         end) xs
      ++ "]"
  | VObj kvs =>
      "{" ++
      (fix members (first : bool) (l : list (string * value)) : string :=
         match l with
         | [] => ""
         | (k, x) :: l' =>
             match x with
             | VUndefined => members first l'
             | _ => (if first then "" else ",") ++ quoted k ++ ":"
                    ++ stringify x ++ members false l'
             end
         end) true kvs
      ++ "}"
  end.

Definition parse (text : string) : result value :=
  if text =? "{}" then Return (VObj [])
  else if text =? "[]" then Return (VArr [])
  else if text =? "null" then Return VNull
  else Throw (SyntaxError "Unexpected token in JSON").

(** A loaded YAML parser that accepts the blank document and the text
    [a: 1], and rejects everything else. *)
Definition load (text : string) : result value :=
  if trim text =? "" then Return VUndefined
  else if text =? "a: 1" then Return (VObj [("a", VNum (Int 1))])
  else Throw (Error "bad indentation of a mapping entry").

(** A loaded YAML parser at a text it does not accept. *)
Definition reject (text : string) : result value :=
  Throw (Error "the stream contains non-printable characters").

(** The text that is one vertical tab: not empty, and blank. *)
Definition vertical_tab : string := String (ascii_of_nat 11) EmptyString.

End Host.

(** The scenario document: the tree that [JSON.parse] gives for the
    [/pets] text of the scenario. *)
Definition scenario : value :=
  VObj
    [("openapi", VStr "3.0.0");
     ("paths",
      VObj
        [("/pets",
          VObj
            [("get",
              VObj
                [("summary", VStr "List all pets");
                 ("parameters",
                  VArr
                    [VObj
                       [("name", VStr "limit");
                        ("in", VStr "query");
                        ("required", VBool false);
                        ("schema",
                         VObj [("type", VStr "integer"); ("format", VStr "int32")])]]);
                 ("responses",
                  VObj
                    [("200",
                      VObj
                        [("content",
                          VObj
                            [("application/json",
                              VObj
                                [("schema",
                                  VObj
                                    [("$ref",
                                      VStr "#/components/schemas/Pets")])])])])])])])]);
     ("components",
      VObj
        [("schemas",
          VObj
            [("Pets",
              VObj
                [("type", VStr "array");
                 ("items", VObj [("$ref", VStr "#/components/schemas/Pet")])]);
             ("Pet",
              VObj
                [("type", VStr "object");
                 ("required", VArr [VStr "id"]);
                 ("properties",
                  VObj [("id", VObj [("type", VStr "integer")])])])])])].

(** The description the extractor derives from an operation:
    [truncateDescription(operation.summary || operation.description)]. *)
Definition description_of (operation : value) : value :=
  truncateDescription
    (or_else (get operation "summary") (get operation "description")) 100.

(** The path and the method of a descriptor. *)
Definition pair_of (endpoint : value) : value * value :=
  (get endpoint "p", get endpoint "m").

(** A (path, method) pair of the document as the two string values a
    descriptor holds. *)
Definition as_values (pm : string * string) : value * value :=
  (VStr (fst pm), VStr (snd pm)).

(** [o'] has the members [m], [p] and [desc] of [o]. *)
Definition keeps (o o' : list (string * value)) : Prop :=
  forall k, In k ["m"; "p"; "desc"] -> assoc k o' = assoc k o.

(** A document whose only method key is written in upper case. *)
Definition upper_case_method : value :=
  VObj [("paths", VObj [("/pets", VObj [("GET", VObj [])])])].

(** A document with one upper-case and one lower-case method key. *)
Definition mixed_case_methods : value :=
  VObj [("paths",
         VObj [("/pets", VObj [("GET", VObj []); ("post", VObj [])]);
               ("/owners", VObj [("get", VObj []); ("summary", VStr "Owners")])])].

(** The JSON response of status 200 whose schema is a reference. *)
Definition responds_with (ref : string) : value :=
  VObj [("200",
         VObj [("content",
                VObj [("application/json",
                       VObj [("schema", VObj [("$ref", VStr ref)])])])])].

(** A document that references the schema [Pet], whose entry in
    [components.schemas] is the boolean schema [false]. *)
Definition false_schema : value :=
  VObj [("paths",
         VObj [("/pets",
                VObj [("get",
                       VObj [("responses",
                              responds_with "#/components/schemas/Pet")])])]);
        ("components", VObj [("schemas", VObj [("Pet", VBool false)])])].

(** A document that references the schema [Order], which
    [components.schemas] does not define. *)
Definition dangling_reference : value :=
  VObj [("paths",
         VObj [("/orders",
                VObj [("get",
                       VObj [("responses",
                              responds_with "#/components/schemas/Order")])])]);
        ("components",
         VObj [("schemas", VObj [("Pet", VObj [("type", VStr "object")])])])].

(** The host the orchestrator reports: [servers[0].url] when truthy, else
    the legacy [host] when truthy, else none. *)
Definition host_of (spec : value) : value :=
  if truthy (get (get (get spec "servers") "0") "url")
  then get (get (get spec "servers") "0") "url"
  else if truthy (get spec "host") then get spec "host" else VUndefined.

(** The security schemes the orchestrator reads:
    [components.securitySchemes], else the legacy [securityDefinitions]. *)
Definition secSchemes_of (spec : value) : value :=
  or_else (get (get spec "components") "securitySchemes")
    (get spec "securityDefinitions").

(** The value is a mapping (an object that is not an array). *)
Definition is_mapping (v : value) : bool :=
  match v with
  | VObj _ => true
  | _ => false
  end.

Definition is_digit (c : ascii) : bool :=
  let n := nat_of_ascii c in ((48 <=? n) && (n <=? 57))%nat.

(** A key that cannot be an index: it starts with a character that is no
    digit, and it is not [length]. *)
Definition is_name (key : string) : bool :=
  match key with
  | String c _ => negb (is_digit c) && negb (key =? "length")
  | EmptyString => false
  end.

(** A document in the legacy (Swagger 2) layout. *)
Definition legacy_document : value :=
  VObj
    [("swagger", VStr "2.0");
     ("host", VStr "api.example.com");
     ("securityDefinitions", VObj [("api_key", VObj [("type", VStr "apiKey")])]);
     ("paths",
      VObj
        [("/pets",
          VObj
            [("get",
              VObj
                [("responses",
                  VObj
                    [("200",
                      VObj [("schema", VObj [("$ref", VStr "#/definitions/Pet")])])])])])]);
     ("definitions", VObj [("Pet", VObj [("type", VStr "object")])])].

(** The parameters of an operation located at [place] ([path], [query]). *)
Definition params_at (place : string) (operation : value) : list value :=
  match get operation "parameters" with
  | VArr ps => filter (fun p => is_string (get p "in") place) ps
  | _ => []
  end.

(** The reference of the JSON request body of an operation. *)
Definition request_ref (operation : value) : value :=
  get (get (get (get (get operation "requestBody") "content") "application/json")
         "schema") "$ref".

(** The reference of the JSON body of the [200] response of an operation,
    else of its [201] response. *)
Definition response_ref (operation : value) : value :=
  let responses := get operation "responses" in
  get (get (get (get (or_else (get responses "200") (get responses "201"))
                   "content") "application/json") "schema") "$ref".

(** An operation with a summary, one path and one query parameter, a
    request body and a created response that reference schemas. *)
Definition create_pet : value :=
  VObj
    [("summary", VStr "Create a pet");
     ("parameters",
      VArr
        [VObj [("name", VStr "shop"); ("in", VStr "path");
               ("schema", VObj [("type", VStr "string")])];
         VObj [("name", VStr "dryRun"); ("in", VStr "query");
               ("required", VBool false);
               ("schema", VObj [("type", VStr "boolean")])]]);
     ("requestBody",
      VObj [("content",
             VObj [("application/json",
                    VObj [("schema",
                           VObj [("$ref", VStr "#/components/schemas/NewPet")])])])]);
     ("responses",
      VObj [("201",
             VObj [("content",
                    VObj [("application/json",
                           VObj [("schema",
                                  VObj [("$ref",
                                         VStr "#/components/schemas/Pet")])])])])])].

(** A document around [create_pet] that defines the two schemas. *)
Definition pet_shop : value :=
  VObj
    [("paths", VObj [("/shops/{shop}/pets", VObj [("post", create_pet)])]);
     ("components",
      VObj
        [("schemas",
          VObj [("Pet", VObj [("type", VStr "object")]);
                ("NewPet", VObj [("type", VStr "object")])])])].

(** The members [simplifySchema] may keep, in the order it writes them. *)
Definition essential_fields : list string :=
  ["type"; "format"; "enum"; "required"; "$ref"; "properties"; "items"].

(** The node is one of the two shapes [simplifySchema] reduces to a type
    string: a truthy [type] alone, or a truthy [type] and a truthy [format]
    alone. *)
Definition reduces (schema : value) : bool :=
  (truthy (get schema "type") && (List.length (keys_of schema) =? 1)%nat)
  || (truthy (get schema "type") && truthy (get schema "format")
      && (List.length (keys_of schema) =? 2)%nat).

(** The name under which a property is listed, from its key and its
    compaction: [type key] when the compaction is a string. *)
Definition listed_as (key : string) (compacted : value) : string :=
  match compacted with
  | VStr t => t ++ " " ++ key
  | _ => key
  end.

(** A schema with a description, a nullability mark and a composition next
    to its type and its properties. *)
Definition annotated_schema : value :=
  VObj
    [("description", VStr "A pet of the shop");
     ("type", VStr "object");
     ("nullable", VBool true);
     ("allOf", VArr [VObj [("$ref", VStr "#/components/schemas/Animal")]]);
     ("required", VArr [VStr "id"]);
     ("properties",
      VObj [("id", VObj [("type", VStr "integer"); ("format", VStr "int64")]);
            ("owner", VObj [("$ref", VStr "#/components/schemas/Owner")])])].

(** The value can be converted to a string: no mapping with a member
    [toString] has to be converted. *)
Fixpoint printable (v : value) : bool :=
  match v with
  | VArr xs => forallb printable xs
  | VObj kvs => match assoc "toString" kvs with Some _ => false | None => true end
  | _ => true
  end.

(** Every mapping at or below the value has a printable [type] and a
    printable [format]. *)
Fixpoint printable_types (v : value) : bool :=
  match v with
  | VObj kvs =>
      printable (get v "type") && printable (get v "format")
      && forallb (fun kv => printable_types (snd kv)) kvs
  | VArr xs => forallb printable_types xs
  | _ => true
  end.

(** A schema in the style of OpenAPI 3.1, whose type is a list. *)
Definition nullable_date : value :=
  VObj [("type", VArr [VStr "string"; VStr "null"]); ("format", VStr "date")].

(** A schema whose type is a mapping with a member named [toString]. *)
Definition unprintable_type : value :=
  VObj [("type", VObj [("toString", VStr "shadow")]); ("format", VStr "date")].

(** Every white-space character of the text is a space that follows a
    character that is no white space; [after_space] tells that the text
    follows a space (or starts the whole text). *)
Fixpoint single_spaced_from (after_space : bool) (s : string) : bool :=
  match s with
  | String c s' =>
      if is_whitespace c
      then (nat_of_ascii c =? 32)%nat && negb after_space
           && single_spaced_from true s'
      else single_spaced_from false s'
  | EmptyString => true
  end.

(** The last character of the text is white space. *)
Fixpoint ends_blank (s : string) : bool :=
  match s with
  | String c EmptyString => is_whitespace c
  | String _ s' => ends_blank s'
  | EmptyString => false
  end.

(** The text is tidy: its only white space is single spaces between two
    characters that are no white space. *)
Definition tidy (s : string) : bool :=
  single_spaced_from true s && negb (ends_blank s).


(** * Properties *)

(** ** Computations that may throw *)

Lemma bind_Return {A B : Type} (c : result A) (k : A -> result B) (r : B) :
  (x <- c ;; k x) = Return r -> exists a, c = Return a /\ k a = Return r.
Proof.
  destruct c as [a | e]; simpl; intros H.
  - exists a. split; [reflexivity | exact H].
  - discriminate H.
Qed.

(** Inverts every hypothesis that says a sequence of steps returned. *)
Ltac returned :=
  repeat match goal with
         | H : bind ?c _ = Return _ |- _ =>
             let a := fresh "a" in
             let Ha := fresh "Ha" in
             apply bind_Return in H; destruct H as [a [Ha H]]
         | H : Return _ = Return _ |- _ => injection H as H
         | H : Throw _ = Return _ |- _ => discriminate H
         end.

(** ** White space *)

Lemma trimStart_all_whitespace (s : string) :
  all_whitespace s = true -> trimStart s = "".
Proof.
  induction s as [| c s IH]; simpl; intros H.
  - reflexivity.
  - apply andb_true_iff in H. destruct H as [Hc Hs].
    rewrite Hc. exact (IH Hs).
Qed.

Lemma trimStart_empty (s : string) :
  trimStart s = "" -> all_whitespace s = true.
Proof.
  induction s as [| c s IH]; simpl; intros H.
  - reflexivity.
  - destruct (is_whitespace c); [exact (IH H) | discriminate H].
Qed.

Lemma trimEnd_empty (s : string) :
  trimEnd s = "" -> all_whitespace s = true.
Proof.
  induction s as [| c s IH]; simpl; intros H.
  - reflexivity.
  - destruct (trimEnd s) as [| c' t].
    + destruct (is_whitespace c); [exact (IH eq_refl) | discriminate H].
    + discriminate H.
Qed.

Lemma trimStart_head (s : string) :
  match trimStart s with
  | String c _ => is_whitespace c = false
  | EmptyString => True
  end.
Proof.
  induction s as [| c s IH]; simpl.
  - exact I.
  - destruct (is_whitespace c) eqn:Hc; [exact IH | exact Hc].
Qed.

Lemma trim_blank (s : string) :
  trim s = "" <-> all_whitespace s = true.
Proof.
  unfold trim. split; intros H.
  - apply trimEnd_empty in H.
    pose proof (trimStart_head s) as Hh.
    destruct (trimStart s) as [| c t] eqn:Ht.
    + apply trimStart_empty. exact Ht.
    + simpl in H. rewrite Hh in H. discriminate H.
  - rewrite (trimStart_all_whitespace s H). reflexivity.
Qed.

Lemma trim_not_blank (s : string) :
  all_whitespace s = false -> (trim s =? "") = false.
Proof.
  intros H. apply String.eqb_neq. intros E. apply trim_blank in E. congruence.
Qed.

(** ** The pipeline *)

Section PipelineProperties.

Variable JSON_parse : string -> result value.
Variable JSON_stringify : value -> string.

Let run := processSpec JSON_parse JSON_stringify.

(** [parseSpec] fails only after the strict parse has failed. *)
Lemma parseSpec_throws_after_JSON (yaml : option (string -> result value))
  (text : string) (err : exn) :
  parseSpec JSON_parse yaml text = Throw err -> exists e, JSON_parse text = Throw e.
Proof.
  unfold parseSpec. destruct (JSON_parse text) as [v | e]; intros H.
  - discriminate H.
  - exists e. reflexivity.
Qed.

Lemma parseSpec_JSON (yaml : option (string -> result value)) (text : string)
  (v : value) :
  JSON_parse text = Return v -> parseSpec JSON_parse yaml text = Return v.
Proof. unfold parseSpec. intros ->. reflexivity. Qed.

(** C8. On an input that is empty or holds white space only, the pipeline
    sets the output to the empty text and the error to the empty text,
    whether the YAML parser is loaded or not; nothing else of the state
    changes. *)
Theorem processSpec_blank_input (st : State) :
  all_whitespace (inputSpec st) = true ->
  outputSpec (run st) = "" /\ error (run st) = "" /\
  isProcessing (run st) = isProcessing st /\ yamlParser (run st) = yamlParser st.
Proof.
  intros H. unfold run, processSpec.
  apply trim_blank in H. rewrite H. simpl. repeat split.
Qed.

(** C9, as the code has it. Take an input that [JSON.parse] rejects.
    With the YAML parser loaded, if the input is not blank and the YAML
    parser rejects it too, [parseSpec] throws the format error carrying the
    YAML parser's message; the pipeline reports it, a message that is not
    empty, and clears the output.  With the YAML parser not loaded, an
    input that is not blank gets the message
    [YAML parser not loaded yet, please wait...] and the output stays as it
    was.  A blank input, empty or not, never reaches the parsers: the
    output and the error are both set to the empty text. *)
Theorem processSpec_malformed_input (st : State) (e1 : exn) :
  JSON_parse (inputSpec st) = Throw e1 ->
  (forall (load : string -> result value) (e2 : exn),
      all_whitespace (inputSpec st) = false ->
      yamlParser st = Some load ->
      load (inputSpec st) = Throw e2 ->
      parseSpec JSON_parse (Some load) (inputSpec st)
      = Throw (Error ("Invalid JSON or YAML format: " ++ message e2)) /\
      error (run st)
      = "Error processing spec: Invalid JSON or YAML format: " ++ message e2 /\
      error (run st) <> "" /\
      outputSpec (run st) = "" /\
      isProcessing (run st) = false) /\
  (all_whitespace (inputSpec st) = false ->
   yamlParser st = None ->
   error (run st) = "YAML parser not loaded yet, please wait..." /\
   outputSpec (run st) = outputSpec st) /\
  (all_whitespace (inputSpec st) = true ->
   outputSpec (run st) = "" /\ error (run st) = "").
Proof.
  intros Hj. split; [| split].
  - intros load e2 Hb Hy Hl.
    assert (Hp : parseSpec JSON_parse (Some load) (inputSpec st)
                 = Throw (Error ("Invalid JSON or YAML format: " ++ message e2))).
    { unfold parseSpec. rewrite Hj, Hl. reflexivity. }
    assert (He : error (run st)
                 = "Error processing spec: Invalid JSON or YAML format: "
                   ++ message e2).
    { unfold run, processSpec. rewrite (trim_not_blank _ Hb), Hy. simpl.
      rewrite Hy, Hp. reflexivity. }
    split; [exact Hp |]. split; [exact He |]. split.
    + rewrite He. discriminate.
    + unfold run, processSpec. rewrite (trim_not_blank _ Hb), Hy. simpl.
      rewrite Hy, Hp. split; reflexivity.
  - intros Hb Hy. unfold run, processSpec.
    rewrite (trim_not_blank _ Hb), Hy. split; reflexivity.
  - intros Hb. unfold run, processSpec.
    apply trim_blank in Hb. rewrite Hb. split; reflexivity.
Qed.

(** C1, as the code has it. For an input that is not blank and that
    [JSON.parse] accepts: [parseSpec] returns its tree whether the YAML
    parser is loaded or not, but [processSpec] calls [parseSpec] only once
    the YAML parser is loaded.  Until then it reports
    [YAML parser not loaded yet, please wait...] and leaves the output as
    it was.  Once the parser is loaded the output is the serialized
    simplification, or, when the simplification throws, the empty text
    with the error reported.  Inside [parseSpec] the parser-unavailable
    failure occurs only on a text whose strict parse has failed. *)
Theorem processSpec_strict_input (st : State) (v : value) :
  all_whitespace (inputSpec st) = false ->
  JSON_parse (inputSpec st) = Return v ->
  (forall yaml, parseSpec JSON_parse yaml (inputSpec st) = Return v) /\
  (yamlParser st = None ->
   error (run st) = "YAML parser not loaded yet, please wait..." /\
   outputSpec (run st) = outputSpec st) /\
  (forall load, yamlParser st = Some load ->
     (forall simplified, simplifySpec v = Return simplified ->
        outputSpec (run st) = JSON_stringify simplified /\ error (run st) = "") /\
     (forall err, simplifySpec v = Throw err ->
        outputSpec (run st) = "" /\
        error (run st) = "Error processing spec: " ++ message err)) /\
  (forall yaml text,
     parseSpec JSON_parse yaml text = Throw (Error "YAML parser not loaded yet") ->
     exists e, JSON_parse text = Throw e).
Proof.
  intros Hb Hj. split; [| split; [| split]].
  - intros yaml. apply parseSpec_JSON. exact Hj.
  - intros Hy. unfold run, processSpec.
    rewrite (trim_not_blank _ Hb), Hy. split; reflexivity.
  - intros load Hy.
    assert (Hrun : run st =
              setIsProcessing false
                (match simplifySpec v with
                 | Return simplified =>
                     setOutputSpec (JSON_stringify simplified)
                       (setError "" (setIsProcessing true st))
                 | Throw err =>
                     setOutputSpec ""
                       (setError ("Error processing spec: " ++ message err)
                          (setError "" (setIsProcessing true st)))
                 end)).
    { unfold run, processSpec. rewrite (trim_not_blank _ Hb), Hy. simpl.
      rewrite (parseSpec_JSON _ _ _ Hj). simpl.
      destruct (simplifySpec v); reflexivity. }
    split.
    + intros simplified Hs. rewrite Hrun, Hs. split; reflexivity.
    + intros err Hs. rewrite Hrun, Hs. split; reflexivity.
  - intros yaml text H. exact (parseSpec_throws_after_JSON yaml text _ H).
Qed.

End PipelineProperties.

(** C8 on the example host: an input of three blanks, parser not loaded and
    an earlier output on display. *)
Lemma processSpec_blank_input_witness :
  all_whitespace "   " = true /\
  outputSpec (processSpec Host.parse Host.stringify
                (mkState "   " "{}" "old error" false None)) = "".
Proof.
  split; [reflexivity |].
  apply (processSpec_blank_input Host.parse Host.stringify
           (mkState "   " "{}" "old error" false None)).
  reflexivity.
Defined.

(** C9 on the example host: an unbalanced brace, with the parser loaded. *)
Lemma processSpec_malformed_input_witness :
  outputSpec (processSpec Host.parse Host.stringify
                (mkState "{" "{}" "" false (Some Host.load))) = "" /\
  error (processSpec Host.parse Host.stringify
           (mkState "{" "{}" "" false (Some Host.load)))
  = "Error processing spec: Invalid JSON or YAML format: bad indentation of a mapping entry".
Proof.
  pose proof (proj1 (processSpec_malformed_input Host.parse Host.stringify
                       (mkState "{" "{}" "" false (Some Host.load))
                       (SyntaxError "Unexpected token in JSON") eq_refl)
                Host.load (Error "bad indentation of a mapping entry")
                eq_refl eq_refl eq_refl) as [_ [He [_ [Ho _]]]].
  split; [exact Ho | exact He].
Defined.

(** C9 fails on the code, in two ways.  The unbalanced brace is a
    non-empty text that neither parser accepts, yet with the YAML parser
    not loaded the earlier output stays on display and the error is the
    please-wait message, not a format error.  And a text that is not empty
    but blank (a single vertical tab), rejected by both parsers, gives the
    empty output and no error at all. *)
Lemma processSpec_malformed_input_counterexample :
  ("{" <> "" /\
   (exists e, Host.parse "{" = Throw e) /\
   (exists e, Host.load "{" = Throw e) /\
   outputSpec (processSpec Host.parse Host.stringify
                 (mkState "{" "{}" "" false None)) = "{}" /\
   error (processSpec Host.parse Host.stringify
            (mkState "{" "{}" "" false None))
   = "YAML parser not loaded yet, please wait...") /\
  (Host.vertical_tab <> "" /\
   (exists e, Host.parse Host.vertical_tab = Throw e) /\
   (exists e, Host.reject Host.vertical_tab = Throw e) /\
   outputSpec (processSpec Host.parse Host.stringify
                 (mkState Host.vertical_tab "{}" "" false (Some Host.reject))) = "" /\
   error (processSpec Host.parse Host.stringify
            (mkState Host.vertical_tab "{}" "" false (Some Host.reject))) = "").
Proof.
  split.
  - split; [discriminate |]. split; [eexists; reflexivity |].
    split; [eexists; reflexivity |]. split; reflexivity.
  - split; [discriminate |]. split; [eexists; reflexivity |].
    split; [eexists; reflexivity |]. split; reflexivity.
Qed.

(** C1 fails on the code: the text [{}] is accepted by [JSON.parse], yet
    with the YAML parser not loaded the pipeline produces no output and
    reports that the parser is unavailable. *)
Lemma processSpec_strict_input_counterexample :
  Host.parse "{}" = Return (VObj []) /\
  outputSpec (processSpec Host.parse Host.stringify
                (mkState "{}" "" "" false None)) = "" /\
  error (processSpec Host.parse Host.stringify
           (mkState "{}" "" "" false None))
  = "YAML parser not loaded yet, please wait...".
Proof. repeat split. Qed.

Lemma processSpec_strict_input_witness :
  error (processSpec Host.parse Host.stringify
           (mkState "{}" "" "" false None))
  = "YAML parser not loaded yet, please wait..." /\
  outputSpec (processSpec Host.parse Host.stringify
                (mkState "{}" "" "" false (Some Host.load)))
  = Host.stringify (VObj [("endpoints", VArr [])]).
Proof.
  pose proof (processSpec_strict_input Host.parse Host.stringify
                (mkState "{}" "" "" false None) (VObj []) eq_refl eq_refl)
    as [_ [Hnone _]].
  pose proof (processSpec_strict_input Host.parse Host.stringify
                (mkState "{}" "" "" false (Some Host.load)) (VObj [])
                eq_refl eq_refl)
    as [_ [_ [Hsome _]]].
  split.
  - exact (proj1 (Hnone eq_refl)).
  - exact (proj1 (proj1 (Hsome Host.load eq_refl) _ eq_refl)).
Defined.

(** ** Truncation of descriptions *)

Lemma length_app (s t : string) :
  String.length (s ++ t) = String.length s + String.length t.
Proof. induction s as [| c s IH]; simpl; [reflexivity | rewrite IH; reflexivity]. Qed.

Lemma length_substring (n : nat) (s : string) :
  n <= String.length s -> String.length (substring 0 n s) = n.
Proof.
  revert s. induction n as [| n IH]; intros s H.
  - destruct s; reflexivity.
  - destruct s as [| c s]; simpl in *; [lia |].
    rewrite IH; [reflexivity | lia].
Qed.

Lemma replace_whitespace_runs_none (s : string) :
  no_whitespace s = true -> replace_whitespace_runs_from false s = s.
Proof.
  induction s as [| c s IH]; simpl; intros H.
  - reflexivity.
  - apply andb_true_iff in H. destruct H as [Hc Hs].
    apply negb_true_iff in Hc. rewrite Hc, (IH Hs). reflexivity.
Qed.

Lemma trimEnd_none (s : string) : no_whitespace s = true -> trimEnd s = s.
Proof.
  induction s as [| c s IH]; simpl; intros H.
  - reflexivity.
  - apply andb_true_iff in H. destruct H as [Hc Hs].
    apply negb_true_iff in Hc. rewrite (IH Hs), Hc.
    destruct s; reflexivity.
Qed.

Lemma trim_none (s : string) : no_whitespace s = true -> trim s = s.
Proof.
  intros H. unfold trim.
  assert (Hs : trimStart s = s).
  { destruct s as [| c s]; simpl in *; [reflexivity |].
    apply andb_true_iff in H. destruct H as [Hc _].
    apply negb_true_iff in Hc. rewrite Hc. reflexivity. }
  rewrite Hs. apply trimEnd_none. exact H.
Qed.

Lemma truncateDescription_string (d : string) :
  d <> "" ->
  truncateDescription (VStr d) 100 =
  if (String.length (trim (replace_whitespace_runs d)) <=? 100)%nat
  then VStr (trim (replace_whitespace_runs d))
  else VStr (substring 0 100 (trim (replace_whitespace_runs d)) ++ "...").
Proof.
  intros H. unfold truncateDescription. simpl.
  destruct d; [contradiction H; reflexivity | reflexivity].
Qed.

(** C7, as the code has it. For a description that is a non-empty string:
    when its white-space-collapsed form has at most 100 characters the
    result is that form; otherwise the result is the first 100 characters of
    that form followed by [...], 103 characters in all.  The result never
    exceeds the cap plus the length of the marker.  A description of 101
    characters without white space gives its first 100 characters followed
    by [...]; one of 100 characters gives itself. *)
Theorem truncateDescription_cap (d : string) :
  d <> "" ->
  let cleaned := trim (replace_whitespace_runs d) in
  (String.length cleaned <= 100 -> truncateDescription (VStr d) 100 = VStr cleaned) /\
  (100 < String.length cleaned ->
   truncateDescription (VStr d) 100 = VStr (substring 0 100 cleaned ++ "...") /\
   String.length (substring 0 100 cleaned ++ "...") = 103) /\
  (exists r, truncateDescription (VStr d) 100 = VStr r /\
             String.length r <= 100 + String.length "...") /\
  (String.length d = 101 -> no_whitespace d = true ->
   truncateDescription (VStr d) 100 = VStr (substring 0 100 d ++ "...")) /\
  (String.length d = 100 -> no_whitespace d = true ->
   truncateDescription (VStr d) 100 = VStr d).
Proof.
  intros Hd cleaned.
  pose proof (truncateDescription_string d Hd) as E. fold cleaned in E.
  assert (Hlong : 100 < String.length cleaned ->
                  String.length (substring 0 100 cleaned ++ "...") = 103).
  { intros H. rewrite length_app, length_substring by lia. reflexivity. }
  split; [| split; [| split; [| split]]].
  - intros H. rewrite E. apply Nat.leb_le in H. rewrite H. reflexivity.
  - intros H. split; [| exact (Hlong H)].
    rewrite E. apply Nat.leb_gt in H. rewrite H. reflexivity.
  - rewrite E. destruct (String.length cleaned <=? 100)%nat eqn:L.
    + exists cleaned. apply Nat.leb_le in L. simpl. split; [reflexivity | lia].
    + exists (substring 0 100 cleaned ++ "..."). apply Nat.leb_gt in L.
      split; [reflexivity |]. rewrite (Hlong L). simpl. lia.
  - intros Hl Hn. rewrite E. unfold cleaned, replace_whitespace_runs.
    rewrite (replace_whitespace_runs_none d Hn), (trim_none d Hn), Hl. reflexivity.
  - intros Hl Hn. rewrite E. unfold cleaned, replace_whitespace_runs.
    rewrite (replace_whitespace_runs_none d Hn), (trim_none d Hn), Hl. reflexivity.
Qed.

(** C7 fails on the empty description: its collapsed form is the empty
    string, of length 0, and the result is [undefined], not that form. *)
Lemma truncateDescription_cap_counterexample :
  String.length (trim (replace_whitespace_runs "")) <= 100 /\
  truncateDescription (VStr "") 100 = VUndefined /\
  truncateDescription (VStr "") 100 <> VStr (trim (replace_whitespace_runs "")).
Proof.
  split; [simpl; lia |]. split; [reflexivity | discriminate].
Qed.

Lemma truncateDescription_cap_witness :
  truncateDescription (VStr "  List   all
 pets ") 100 = VStr "List all pets".
Proof.
  assert (H : "  List   all
 pets " <> "") by discriminate.
  exact (proj1 (truncateDescription_cap _ H) ltac:(vm_compute; lia)).
Defined.

(** ** Compaction of schemas *)

Lemma simplifySchema_string (s : string) : simplifySchema (VStr s) = Return (VStr s).
Proof.
  unfold simplifySchema. cbn [depth simplifySchema_rec].
  unfold simplifySchema_body. cbn [typeof]. rewrite orb_true_r. reflexivity.
Qed.

(** A node whose only field is an empty [type] does not reduce to a string:
    the field is falsy and the node compacts to the empty object. *)
Lemma simplifySchema_empty_type :
  simplifySchema (VObj [("type", VStr "")]) = Return (VObj []).
Proof. reflexivity. Qed.

(** The nodes of the two shapes that reduce to a plain type string are
    those whose strings are not empty. *)
Lemma simplifySchema_type_reduces (t : string) :
  (exists s, simplifySchema (VObj [("type", VStr t)]) = Return (VStr s)) <->
  t <> "".
Proof.
  split.
  - intros [s H] ->. vm_compute in H. discriminate H.
  - intros Ht. exists t. destruct t; [contradiction Ht; reflexivity | reflexivity].
Qed.

Lemma simplifySchema_type_format_reduces (t f : string) :
  (exists s, simplifySchema (VObj [("type", VStr t); ("format", VStr f)])
             = Return (VStr s)) <->
  t <> "" /\ f <> "".
Proof.
  split.
  - intros [s H]. destruct t; [vm_compute in H; discriminate H |].
    destruct f; [vm_compute in H; discriminate H |].
    split; discriminate.
  - intros [Ht Hf]. exists (t ++ "(" ++ f ++ ")").
    destruct t; [contradiction Ht; reflexivity |].
    destruct f; [contradiction Hf; reflexivity | reflexivity].
Qed.

(** C6, as the code has it. A node [{type: t}] with that one field and a
    type string that is not empty compacts to the string [t]; a node with
    exactly the fields [type] and [format], both non-empty strings,
    compacts to [t(f)], whichever field comes first; and compacting either
    string again returns it unchanged.  (The tests on [type] and [format]
    are truthiness tests: with an empty string the node compacts to an
    object, see the two lemmas above and the counterexample below.) *)
Theorem simplifySchema_plain_type (t f : string) :
  (t <> "" ->
   simplifySchema (VObj [("type", VStr t)]) = Return (VStr t) /\
   simplifySchema (VStr t) = Return (VStr t)) /\
  (t <> "" -> f <> "" ->
   simplifySchema (VObj [("type", VStr t); ("format", VStr f)])
   = Return (VStr (t ++ "(" ++ f ++ ")")) /\
   simplifySchema (VObj [("format", VStr f); ("type", VStr t)])
   = Return (VStr (t ++ "(" ++ f ++ ")")) /\
   simplifySchema (VStr (t ++ "(" ++ f ++ ")"))
   = Return (VStr (t ++ "(" ++ f ++ ")"))).
Proof.
  split.
  - intros Ht. split; [| apply simplifySchema_string].
    destruct t; [contradiction Ht; reflexivity | reflexivity].
  - intros Ht Hf. split; [| split; [| apply simplifySchema_string]].
    + destruct t; [contradiction Ht; reflexivity |].
      destruct f; [contradiction Hf; reflexivity | reflexivity].
    + destruct t; [contradiction Ht; reflexivity |].
      destruct f; [contradiction Hf; reflexivity | reflexivity].
Qed.

(** C6 fails on the code where a string is empty: [{type: ""}] compacts to
    the empty object, not to the string [""], and
    [{type: "string", format: ""}] compacts to [{type: "string"}], not to
    the string [string()]; compacting that result again gives ["string"],
    so compaction is not idempotent there. *)
Lemma simplifySchema_plain_type_counterexample :
  simplifySchema (VObj [("type", VStr "")]) = Return (VObj []) /\
  simplifySchema (VObj [("type", VStr "")]) <> Return (VStr "") /\
  simplifySchema (VObj [("type", VStr "string"); ("format", VStr "")])
  = Return (VObj [("type", VStr "string")]) /\
  simplifySchema (VObj [("type", VStr "string"); ("format", VStr "")])
  <> Return (VStr ("string" ++ "(" ++ "" ++ ")")) /\
  simplifySchema (VObj [("type", VStr "string")]) = Return (VStr "string").
Proof.
  split; [reflexivity |]. split; [discriminate |].
  split; [reflexivity |]. split; [discriminate | reflexivity].
Qed.

Lemma simplifySchema_plain_type_witness :
  simplifySchema (VObj [("type", VStr "string")]) = Return (VStr "string") /\
  simplifySchema (VObj [("type", VStr "integer"); ("format", VStr "int64")])
  = Return (VStr "integer(int64)") /\
  simplifySchema (VStr "integer(int64)") = Return (VStr "integer(int64)").
Proof.
  assert (Hs : "string" <> "") by discriminate.
  assert (Hi : "integer" <> "") by discriminate.
  assert (Hf : "int64" <> "") by discriminate.
  split; [| split].
  - exact (proj1 (proj1 (simplifySchema_plain_type "string" "") Hs)).
  - exact (proj1 (proj2 (simplifySchema_plain_type "integer" "int64") Hi Hf)).
  - exact (proj2 (proj2 (proj2 (simplifySchema_plain_type "integer" "int64") Hi Hf))).
Defined.

(** ** The scenario *)

(** C4. On the scenario document the simplifier returns one endpoint, the
    descriptor [{m: get, p: /pets, desc: List all pets,
    qp: [limit:integer?(int32)], res: Pets, codes: [200]}], and a [schemas]
    map with the single entry [Pets]: [Pet], which only [Pets.items]
    references, is not in it. *)
Theorem simplifySpec_scenario :
  exists endpoints schemas,
    simplifySpec scenario
    = Return (VObj [("endpoints", VArr endpoints); ("schemas", VObj schemas)]) /\
    In (VObj [("m", VStr "get"); ("p", VStr "/pets");
              ("desc", VStr "List all pets");
              ("qp", VArr [VStr "limit:integer?(int32)"]);
              ("res", VStr "Pets");
              ("codes", VArr [VNum (Int 200)])]) endpoints /\
    List.length endpoints = 1 /\
    assoc "Pets" schemas
    = Some (VObj [("type", VStr "array"); ("items", VObj [("$ref", VStr "Pet")])]) /\
    assoc "Pet" schemas = None /\
    map fst schemas = ["Pets"] /\
    get (get (get (get scenario "components") "schemas") "Pets") "items"
    = VObj [("$ref", VStr "#/components/schemas/Pet")] /\
    collectReferencedSchemas scenario = Return ["Pets"].
Proof.
  eexists. eexists. split; [vm_compute; reflexivity |].
  split; [left; reflexivity |]. repeat split.
Qed.

(** ** Reading and writing members *)

Lemma prop_Return (v : value) (key : string) (a : value) :
  prop v key = Return a -> a = get v key /\ nullish v = false.
Proof.
  destruct v; simpl; intros H; try discriminate H;
    injection H as <-; split; reflexivity.
Qed.

Lemma opt_get (v : value) (key : string) : opt v key = get v key.
Proof. destruct v; reflexivity. Qed.

Lemma Object_entries_Return (v : value) (es : list (string * value)) :
  Object_entries v = Return es -> es = own_entries v.
Proof.
  unfold Object_entries. destruct (nullish v); intros H;
    [discriminate H | injection H as <-; reflexivity].
Qed.

Lemma assoc_update_other (k key : string) (v : value) (o : list (string * value)) :
  k <> key -> assoc k (update key v o) = assoc k o.
Proof.
  intros Hk. induction o as [| [k' x] o IH]; simpl; [reflexivity |].
  destruct (k' =? key) eqn:E; simpl.
  - apply String.eqb_eq in E. subst k'.
    destruct (key =? k) eqn:E'; [apply String.eqb_eq in E'; congruence | reflexivity].
  - rewrite IH. reflexivity.
Qed.

Lemma assoc_insert_index_other (k key : string) (n : N) (v : value)
  (o : list (string * value)) :
  k <> key -> assoc k (insert_index n key v o) = assoc k o.
Proof.
  intros Hk.
  assert (Hc : forall l, assoc k ((key, v) :: l) = assoc k l).
  { intros l. simpl. destruct (key =? k) eqn:E; [| reflexivity].
    apply String.eqb_eq in E. congruence. }
  induction o as [| [k' x] o IH]; [apply Hc |].
  cbn [insert_index]. destruct (array_index k') as [m |]; [| apply Hc].
  destruct (m <? n)%N; [| apply Hc].
  simpl. rewrite IH. reflexivity.
Qed.

Lemma assoc_app_other (k key : string) (v : value) (o : list (string * value)) :
  k <> key -> assoc k (o ++ [(key, v)]) = assoc k o.
Proof.
  intros Hk. induction o as [| [k' x] o IH]; simpl.
  - destruct (key =? k) eqn:E; [apply String.eqb_eq in E; congruence | reflexivity].
  - rewrite IH. reflexivity.
Qed.

Lemma assoc_obj_set_other (k key : string) (v : value) (o : list (string * value)) :
  k <> key -> assoc k (obj_set o key v) = assoc k o.
Proof.
  intros Hk. unfold obj_set.
  destruct (key =? "__proto__"); [reflexivity |].
  destruct (assoc key o).
  - apply assoc_update_other. exact Hk.
  - destruct (array_index key).
    + apply assoc_insert_index_other. exact Hk.
    + apply assoc_app_other. exact Hk.
Qed.

Lemma assoc_update_same (key : string) (v x : value) (o : list (string * value)) :
  assoc key o = Some x -> assoc key (update key v o) = Some v.
Proof.
  induction o as [| [k' y] o IH]; simpl; [discriminate |].
  destruct (k' =? key) eqn:E; simpl; rewrite E; [reflexivity | exact IH].
Qed.

Lemma assoc_insert_index_same (key : string) (n : N) (v : value)
  (o : list (string * value)) :
  assoc key o = None -> assoc key (insert_index n key v o) = Some v.
Proof.
  assert (Hc : forall l, assoc key ((key, v) :: l) = Some v).
  { intros l. simpl. rewrite String.eqb_refl. reflexivity. }
  induction o as [| [k' y] o IH]; intros H; [apply Hc |].
  cbn [insert_index]. destruct (array_index k') as [m |]; [| apply Hc].
  destruct (m <? n)%N; [| apply Hc].
  simpl in *. destruct (k' =? key); [discriminate H | exact (IH H)].
Qed.

Lemma assoc_app_same (key : string) (v : value) (o : list (string * value)) :
  assoc key o = None -> assoc key (o ++ [(key, v)]) = Some v.
Proof.
  induction o as [| [k' y] o IH]; simpl; intros H.
  - rewrite String.eqb_refl. reflexivity.
  - destruct (k' =? key); [discriminate H | exact (IH H)].
Qed.

Lemma assoc_obj_set_same (key : string) (v : value) (o : list (string * value)) :
  key <> "__proto__" -> assoc key (obj_set o key v) = Some v.
Proof.
  intros Hk. unfold obj_set. apply String.eqb_neq in Hk. rewrite Hk.
  destruct (assoc key o) eqn:E.
  - exact (assoc_update_same key v _ o E).
  - destruct (array_index key).
    + apply assoc_insert_index_same. exact E.
    + apply assoc_app_same. exact E.
Qed.

Lemma assoc_obj_set_proto (k : string) (v : value) (o : list (string * value)) :
  assoc k (obj_set o "__proto__" v) = assoc k o.
Proof. reflexivity. Qed.

Lemma assoc_keys {A : Type} (k : string) (o : list (string * A)) :
  In k (map fst o) <-> assoc k o <> None.
Proof.
  induction o as [| [k' x] o IH]; simpl.
  - split; [contradiction | congruence].
  - destruct (k' =? k) eqn:E.
    + apply String.eqb_eq in E. split; [discriminate | auto].
    + apply String.eqb_neq in E. rewrite <- IH. split; [| auto].
      intros [H | H]; [contradiction | exact H].
Qed.

(** The keys after a write: those before it, and the written key unless it
    is [__proto__]. *)
Lemma keys_obj_set (k key : string) (v : value) (o : list (string * value)) :
  In k (map fst (obj_set o key v)) <->
  In k (map fst o) \/ (k = key /\ key <> "__proto__").
Proof.
  rewrite !assoc_keys. destruct (String.eqb_spec k key) as [-> | Hk].
  - destruct (String.eqb_spec key "__proto__") as [-> | Hp].
    + rewrite assoc_obj_set_proto. tauto.
    + rewrite (assoc_obj_set_same key v o Hp). split; [auto | discriminate].
  - rewrite (assoc_obj_set_other k key v o Hk). tauto.
Qed.

Lemma keeps_refl (o : list (string * value)) : keeps o o.
Proof. intros k _. reflexivity. Qed.

Lemma keeps_trans (o1 o2 o3 : list (string * value)) :
  keeps o1 o2 -> keeps o2 o3 -> keeps o1 o3.
Proof. intros H1 H2 k Hk. rewrite (H2 k Hk). exact (H1 k Hk). Qed.

Lemma keeps_set (o : list (string * value)) (key : string) (v : value) :
  ~ In key ["m"; "p"; "desc"] -> keeps o (obj_set o key v).
Proof.
  intros Hn k Hk. apply assoc_obj_set_other. intros ->. exact (Hn Hk).
Qed.

Ltac not_kept :=
  let Hkey := fresh "Hkey" in
  simpl; intros Hkey; repeat destruct Hkey as [Hkey | Hkey];
  try discriminate Hkey; try contradiction.

(** Splits the steps of a stage that adds an optional member. *)
Ltac stage :=
  repeat match goal with
         | H : (if ?c then _ else _) = Return _ |- _ => destruct c
         | H : match ?v with _ => _ end = Return _ |- _ =>
             destruct v; try discriminate H
         | H : bind _ _ = Return _ |- _ => returned
         | H : Return _ = Return _ |- _ => returned
         end;
  subst.

Ltac kept :=
  repeat first [ apply keeps_refl
               | eapply keeps_trans; [| apply keeps_set; not_kept] ].

(** ** The endpoint extractor *)

(** What a descriptor always holds: the method in lower case, the path,
    and the description when it is truthy. *)
Lemma endpointOf_shape (method path : string) (operation e : value) :
  endpointOf method path operation = Return e ->
  exists o,
    e = VObj o /\
    assoc "m" o = Some (VStr (toLowerCase method)) /\
    assoc "p" o = Some (VStr path) /\
    assoc "desc" o =
      (if truthy (description_of operation) then Some (description_of operation)
       else None).
Proof.
  unfold endpointOf. intros H. returned.
  apply prop_Return in Ha. destruct Ha as [-> Hn].
  assert (E0 : truncateDescription a0 100 = description_of operation).
  { unfold description_of, or_else. destruct (truthy (get operation "summary")).
    - injection Ha0 as <-. reflexivity.
    - apply prop_Return in Ha0. destruct Ha0 as [-> _]. reflexivity. }
  rewrite E0 in *. clear Ha0 E0.
  set (base := if truthy (description_of operation)
               then obj_set [("m", VStr (toLowerCase method)); ("p", VStr path)]
                      "desc" (description_of operation)
               else [("m", VStr (toLowerCase method)); ("p", VStr path)]) in *.
  subst e. eexists. split; [reflexivity |].
  match goal with
  | |- assoc "m" ?X = _ /\ _ => assert (K : keeps base X)
  end.
  { match goal with
    | |- keeps _ (obj_set (if ?c then _ else _) _ _) => destruct c
    end; stage; kept. }
  rewrite (K "m"), (K "p"), (K "desc") by (simpl; tauto).
  unfold base. destruct (truthy (description_of operation)); repeat split.
Qed.

Lemma replace_whitespace_runs_blank (s : string) :
  all_whitespace s = true -> replace_whitespace_runs_from true s = "".
Proof.
  induction s as [| c s IH]; simpl; intros H.
  - reflexivity.
  - apply andb_true_iff in H. destruct H as [Hc Hs]. rewrite Hc. exact (IH Hs).
Qed.

Lemma cleaned_blank (s : string) :
  all_whitespace s = true -> trim (replace_whitespace_runs s) = "".
Proof.
  intros H. destruct s as [| c s]; [reflexivity |].
  unfold replace_whitespace_runs. simpl in *.
  apply andb_true_iff in H. destruct H as [Hc Hs].
  rewrite Hc, (replace_whitespace_runs_blank s Hs). reflexivity.
Qed.

(** C10. An operation whose [summary] is a non-empty string of white space
    only: the summary is truthy and is chosen over the description, it
    collapses to the empty string, and the descriptor that is emitted has no
    [desc] member, whatever the [description] member holds. *)
Theorem endpointOf_blank_summary (method path : string)
  (members : list (string * value)) (s : string) (e : value) :
  assoc "summary" members = Some (VStr s) ->
  s <> "" ->
  all_whitespace s = true ->
  endpointOf method path (VObj members) = Return e ->
  or_else (get (VObj members) "summary") (get (VObj members) "description") = VStr s /\
  truncateDescription (VStr s) 100 = VStr "" /\
  get e "desc" = VUndefined /\
  ~ In "desc" (keys_of e).
Proof.
  intros Hs Hne Hw He.
  assert (Hsel : or_else (get (VObj members) "summary")
                   (get (VObj members) "description") = VStr s).
  { unfold or_else, get. simpl. rewrite Hs. simpl.
    destruct s; [contradiction Hne; reflexivity | reflexivity]. }
  assert (Ht : truncateDescription (VStr s) 100 = VStr "").
  { rewrite (truncateDescription_string s Hne), (cleaned_blank s Hw). reflexivity. }
  apply endpointOf_shape in He. destruct He as [o [-> [_ [_ Hd]]]].
  unfold description_of in Hd. rewrite Hsel, Ht in Hd. simpl in Hd.
  repeat split; try assumption.
  - unfold get. simpl. rewrite Hd. reflexivity.
  - unfold keys_of. simpl. rewrite assoc_keys. congruence.
Qed.

Lemma endpointOf_blank_summary_witness :
  exists e,
    endpointOf "get" "/pets"
      (VObj [("summary", VStr "   "); ("description", VStr "List all pets")])
    = Return e /\
    get e "desc" = VUndefined.
Proof.
  eexists. split; [vm_compute; reflexivity |].
  assert (Hne : "   " <> "") by discriminate.
  exact (proj1 (proj2 (proj2
    (endpointOf_blank_summary "get" "/pets"
       [("summary", VStr "   "); ("description", VStr "List all pets")]
       "   " _ eq_refl Hne eq_refl eq_refl)))).
Defined.

Lemma includes_http_methods_lower (m : string) :
  includes http_methods m = true -> toLowerCase m = m.
Proof.
  unfold includes. intros H. apply existsb_exists in H.
  destruct H as [x [Hx E]]. apply String.eqb_eq in E. subst x.
  simpl in Hx.
  repeat destruct Hx as [Hx | Hx]; try contradiction; subst m; reflexivity.
Qed.

Lemma operations_pairs (path : string) (operations : list (string * value)) :
  forall acc es,
    forEach
      (fun endpoints mo =>
         if negb (includes http_methods (fst mo)) then Return endpoints
         else endpoint <- endpointOf (fst mo) path (snd mo) ;;
              Return (endpoints ++ [endpoint])%list)
      operations acc = Return es ->
    map pair_of es =
    (map pair_of acc ++
     map (fun mo => (VStr path, VStr (fst mo))) (filter recognized operations))%list.
Proof.
  induction operations as [| mo l IH]; cbn [forEach filter]; intros acc es H.
  - injection H as <-. simpl. rewrite app_nil_r. reflexivity.
  - returned. unfold recognized at 1.
    destruct (includes http_methods (fst mo)) eqn:Hm; cbn [negb] in Ha.
    + returned. subst a. rewrite (IH _ _ H), map_app, <- app_assoc. cbn [map app].
      apply endpointOf_shape in Ha0. destruct Ha0 as [o [-> [Hmeth [Hpath _]]]].
      rewrite (includes_http_methods_lower _ Hm) in Hmeth.
      unfold pair_of, get. simpl. rewrite Hmeth, Hpath. reflexivity.
    + injection Ha as <-. exact (IH _ _ H).
Qed.

Lemma operationsOf_pairs (path : string) (pathItem : value) (acc es : list value) :
  operationsOf path pathItem acc = Return es ->
  map pair_of es =
  (map pair_of acc ++
   map (fun mo => (VStr path, VStr (fst mo)))
     (filter recognized (own_entries pathItem)))%list.
Proof.
  unfold operationsOf. intros H. returned.
  apply Object_entries_Return in Ha. subst a.
  exact (operations_pairs path _ _ _ H).
Qed.

Lemma items_pairs (items : list (string * value)) :
  forall acc es,
    forEach (fun endpoints pi => operationsOf (fst pi) (snd pi) endpoints) items acc
    = Return es ->
    map pair_of es =
    (map pair_of acc ++
     map as_values
       (flat_map
          (fun pi =>
             map (fun mo => (fst pi, fst mo))
               (filter recognized (own_entries (snd pi))))
          items))%list.
Proof.
  induction items as [| pi l IH]; simpl; intros acc es H.
  - injection H as <-. rewrite app_nil_r. reflexivity.
  - returned. rewrite (IH _ _ H), (operationsOf_pairs _ _ _ _ Ha).
    rewrite map_app, map_map, <- app_assoc. reflexivity.
Qed.

Lemma endpointsOf_pairs (paths : value) (es : list value) :
  endpointsOf paths = Return es ->
  map pair_of es = map as_values (pairs_under paths).
Proof.
  unfold endpointsOf, pairs_under. destruct (truthy paths); intros H.
  - returned. apply Object_entries_Return in Ha. subst a.
    exact (items_pairs _ _ _ H).
  - injection H as <-. reflexivity.
Qed.

Lemma pairs_under_spec (paths : value) (path m : string) :
  In (path, m) (pairs_under paths) <->
  truthy paths = true /\
  exists pathItem operation,
    In (path, pathItem) (own_entries paths) /\
    In (m, operation) (own_entries pathItem) /\
    includes http_methods m = true.
Proof.
  unfold pairs_under. destruct (truthy paths).
  - rewrite in_flat_map. split.
    + intros [[p pathItem] [Hp Hm]]. apply in_map_iff in Hm.
      destruct Hm as [[m' operation] [E Hm]]. apply filter_In in Hm.
      simpl in E. injection E as <- <-. destruct Hm as [Hm Hr].
      split; [reflexivity |]. exists pathItem, operation. auto.
    + intros [_ [pathItem [operation [Hp [Hm Hr]]]]].
      exists (path, pathItem). split; [exact Hp |].
      apply in_map_iff. exists (m, operation). split; [reflexivity |].
      apply filter_In. auto.
  - simpl. split; [contradiction | intros [H _]; discriminate H].
Qed.

(** ** The orchestrator *)

(** What a completed [simplifySpec] went through: the endpoints extracted
    from [spec.paths], the reference set, and an output that is the [host]
    and [sec] members, then [endpoints], then [schemas] when the reference
    set is not empty and [components.schemas] is truthy. *)
Lemma simplifySpec_inv (spec out : value) :
  simplifySpec spec = Return out ->
  exists base endpoints refs,
    endpointsOf (get spec "paths") = Return endpoints /\
    collectReferencedSchemas spec = Return refs /\
    assoc "endpoints" base = None /\
    assoc "schemas" base = None /\
    let schemas := get (get spec "components") "schemas" in
    let with_endpoints := obj_set base "endpoints" (VArr endpoints) in
    if negb (List.length refs =? 0)%nat && truthy schemas
    then exists compacted,
        schemasOf schemas refs = Return compacted /\
        out = VObj (obj_set with_endpoints "schemas" (VObj compacted))
    else out = VObj with_endpoints.
Proof.
  unfold simplifySpec. intros H. returned.
  apply prop_Return in Ha1, Ha4. destruct Ha1 as [-> _]. destruct Ha4 as [-> _].
  match goal with H : _ = Return ?b |- _ =>
    match type of b with list (string * value) => exists b end end.
  match goal with H : endpointsOf _ = Return ?b |- _ => exists b end.
  match goal with H : collectReferencedSchemas _ = Return ?b |- _ => exists b end.
  split; [assumption |]. split; [assumption |].
  split; [| split].
  - clear H. stage;
      repeat match goal with |- context [if ?c then _ else _] => destruct c end;
      repeat rewrite assoc_obj_set_other by discriminate; reflexivity.
  - clear H. stage;
      repeat match goal with |- context [if ?c then _ else _] => destruct c end;
      repeat rewrite assoc_obj_set_other by discriminate; reflexivity.
  - cbv zeta. rewrite opt_get in H.
    match goal with |- if ?c then _ else _ => destruct c end.
    + returned. eexists. split; [eassumption | congruence].
    + congruence.
Qed.

Lemma get_member (o : list (string * value)) (key : string) (v : value) :
  assoc key o = Some v -> get (VObj o) key = v.
Proof. unfold get. simpl. intros ->. reflexivity. Qed.

Lemma get_no_member (o : list (string * value)) (key : string) :
  assoc key o = None -> get (VObj o) key = VUndefined.
Proof. unfold get. simpl. intros ->. reflexivity. Qed.

(** C2, as the code has it. When the simplifier completes, the (path,
    method) pairs of the descriptors in [endpoints] are, one for one and in
    iteration order, the pairs of a path entry and a child key that is
    exactly (case-sensitively) one of [get], [post], [put], [patch],
    [delete], [head], [options]; the method of a descriptor is that key,
    which its own lower-casing leaves unchanged. *)
Theorem simplifySpec_endpoints (spec out : value) :
  simplifySpec spec = Return out ->
  exists endpoints,
    get out "endpoints" = VArr endpoints /\
    map pair_of endpoints = map as_values (recognized_pairs spec) /\
    (forall path m,
        In (path, m) (recognized_pairs spec) <->
        truthy (get spec "paths") = true /\
        exists pathItem operation,
          In (path, pathItem) (own_entries (get spec "paths")) /\
          In (m, operation) (own_entries pathItem) /\
          includes http_methods m = true) /\
    (forall path m, In (path, m) (recognized_pairs spec) -> toLowerCase m = m).
Proof.
  intros H. apply simplifySpec_inv in H.
  destruct H as [base [endpoints [refs [He [_ [Hb [_ H]]]]]]].
  exists endpoints. split; [| split; [| split]].
  - cbv zeta in H.
    match type of H with if ?c then _ else _ => destruct c end.
    + destruct H as [compacted [_ ->]]. apply get_member.
      rewrite assoc_obj_set_other by discriminate.
      apply assoc_obj_set_same. discriminate.
    + subst out. apply get_member. apply assoc_obj_set_same. discriminate.
  - exact (endpointsOf_pairs _ _ He).
  - intros path m. apply pairs_under_spec.
  - intros path m Hin. apply pairs_under_spec in Hin.
    destruct Hin as [_ [pathItem [operation [_ [_ Hm]]]]].
    exact (includes_http_methods_lower m Hm).
Qed.

(** C2 fails on the code: the key [GET] equals [get] under case-insensitive
    comparison, yet no descriptor is emitted for it. *)
Lemma simplifySpec_endpoints_counterexample :
  toLowerCase "GET" = "get" /\
  includes http_methods (toLowerCase "GET") = true /\
  In ("GET", VObj []) (own_entries (get (get upper_case_method "paths") "/pets")) /\
  simplifySpec upper_case_method = Return (VObj [("endpoints", VArr [])]).
Proof.
  split; [reflexivity |]. split; [reflexivity |].
  split; [left; reflexivity | reflexivity].
Qed.

Lemma simplifySpec_endpoints_witness :
  exists out endpoints,
    simplifySpec mixed_case_methods = Return out /\
    get out "endpoints" = VArr endpoints /\
    map pair_of endpoints
    = [(VStr "/pets", VStr "post"); (VStr "/owners", VStr "get")].
Proof.
  destruct (simplifySpec mixed_case_methods) as [out | e] eqn:E;
    [| vm_compute in E; discriminate E].
  destruct (simplifySpec_endpoints mixed_case_methods out E)
    as [endpoints [Hg [Hp _]]].
  exists out, endpoints. split; [reflexivity |]. split; [exact Hg | exact Hp].
Defined.

Lemma truthy_get (v : value) (key : string) :
  truthy (get v key) = true -> truthy v = true.
Proof.
  destruct v as [| | b | n | s | xs | kvs]; try (intros H; discriminate H);
    try reflexivity.
  destruct s as [| c s]; [| reflexivity].
  unfold get. simpl. destruct (key =? "length"); intros H; discriminate H.
Qed.

Lemma schemas_keys (schemas : value) (refs : list string) :
  forall acc out,
    forEach
      (fun out schemaName =>
         if truthy (get schemas schemaName)
         then s <- simplifySchema (get schemas schemaName) ;;
              Return (obj_set out schemaName s)
         else Return out)
      refs acc = Return out ->
    forall name,
      In name (map fst out) <->
      In name (map fst acc) \/
      (In name refs /\ truthy (get schemas name) = true /\ name <> "__proto__").
Proof.
  induction refs as [| r l IH]; cbn [forEach]; intros acc out H name.
  - injection H as <-. simpl. tauto.
  - returned. rewrite (IH _ _ H name). clear IH H.
    destruct (truthy (get schemas r)) eqn:Ht.
    + returned. subst a. rewrite keys_obj_set. simpl.
      split; intros Hc; intuition (subst; auto).
    + injection Ha as <-. simpl.
      split; intros Hc; intuition (subst; auto; congruence).
Qed.

Lemma schemasOf_keys (schemas : value) (refs : list string)
  (out : list (string * value)) :
  schemasOf schemas refs = Return out ->
  forall name,
    In name (map fst out) <->
    In name refs /\ truthy (get schemas name) = true /\ name <> "__proto__".
Proof.
  unfold schemasOf. intros H name. rewrite (schemas_keys _ _ _ _ H name).
  simpl. tauto.
Qed.

(** C5, as the code has it. When the simplifier completes, a name is a key
    of the output [schemas] map exactly when it is a member of the reference
    set, the entry [components.schemas[name]] is truthy, and the name is not
    [__proto__].  So every key of the output map is in the reference set,
    and a referenced name with a truthy entry is in the output; a referenced
    name whose entry is falsy ([null], [false], [0], the empty string) is
    not. *)
Theorem simplifySpec_schemas (spec out : value) (refs : list string) :
  simplifySpec spec = Return out ->
  collectReferencedSchemas spec = Return refs ->
  forall name,
    In name (keys_of (get out "schemas")) <->
    In name refs /\
    truthy (get (get (get spec "components") "schemas") name) = true /\
    name <> "__proto__".
Proof.
  intros H Hr name. apply simplifySpec_inv in H.
  destruct H as [base [endpoints [refs' [_ [Hr' [_ [Hs H]]]]]]].
  rewrite Hr in Hr'. injection Hr' as <-. cbv zeta in H.
  destruct (negb (List.length refs =? 0)%nat
            && truthy (get (get spec "components") "schemas")) eqn:C.
  - destruct H as [compacted [Hc ->]].
    rewrite (get_member _ "schemas" (VObj compacted))
      by (apply assoc_obj_set_same; discriminate).
    exact (schemasOf_keys _ _ _ Hc name).
  - subst out. rewrite get_no_member
      by (rewrite assoc_obj_set_other by discriminate; exact Hs).
    simpl. split; [contradiction |]. intros [Hin [Ht _]].
    apply truthy_get in Ht. rewrite Ht, andb_true_r in C.
    destruct refs; [contradiction Hin | discriminate C].
Qed.

(** C5 fails on the code: [Pet] is in the reference set and has an entry in
    [components.schemas], the boolean schema [false], yet the output map has
    no [Pet]. *)
Lemma simplifySpec_schemas_counterexample :
  collectReferencedSchemas false_schema = Return ["Pet"] /\
  In "Pet" (keys_of (get (get false_schema "components") "schemas")) /\
  exists out,
    simplifySpec false_schema = Return out /\
    get out "schemas" = VObj [] /\
    ~ In "Pet" (keys_of (get out "schemas")).
Proof.
  split; [reflexivity |]. split; [left; reflexivity |].
  eexists. split; [vm_compute; reflexivity |].
  split; [reflexivity | intros H; exact H].
Qed.

Lemma simplifySpec_schemas_witness :
  exists out,
    simplifySpec scenario = Return out /\
    (In "Pets" (keys_of (get out "schemas")) <->
     In "Pets" ["Pets"] /\
     truthy (get (get (get scenario "components") "schemas") "Pets") = true /\
     "Pets" <> "__proto__").
Proof.
  destruct (simplifySpec scenario) as [out | e] eqn:E;
    [| vm_compute in E; discriminate E].
  exists out. split; [reflexivity |].
  exact (simplifySpec_schemas scenario out ["Pets"] E eq_refl "Pets").
Defined.

(** ** The reference collector *)

Lemma includes_In (l : list string) (s : string) :
  includes l s = true <-> In s l.
Proof.
  unfold includes. rewrite existsb_exists. split.
  - intros [x [Hx E]]. apply String.eqb_eq in E. subst x. exact Hx.
  - intros H. exists s. split; [exact H | apply String.eqb_refl].
Qed.

Lemma set_add_In (refs : list string) (name x : string) :
  In x (set_add refs name) <-> In x refs \/ x = name.
Proof.
  unfold set_add. destruct (includes refs name) eqn:E.
  - apply includes_In in E. split; [auto |]. intros [H | ->]; assumption.
  - rewrite in_app_iff. simpl. intuition.
Qed.

Lemma startsWith_truthy (r : string) :
  startsWith r schema_prefix = true -> truthy (VStr r) = true.
Proof. destruct r; [intros H; discriminate H | reflexivity]. Qed.

Lemma addRef_In (ref : value) (refs : list string) (x : string) :
  In x (addRef ref refs) <->
  In x refs \/
  exists r, ref = VStr r /\ startsWith r schema_prefix = true /\
            x = replace r schema_prefix "".
Proof.
  unfold addRef. destruct ref as [| | b | n | r | xs | kvs];
    try (split; [auto | intros [H | [r [E _]]]; [exact H | discriminate E]]).
  destruct (startsWith r schema_prefix) eqn:E.
  - rewrite (startsWith_truthy r E). simpl. rewrite set_add_In. split.
    + intros [H | ->]; [auto |]. right. exists r. auto.
    + intros [H | [r' [Er [_ ->]]]]; [auto |]. injection Er as <-. auto.
  - rewrite andb_false_r. split; [auto |].
    intros [H | [r' [Er [E' _]]]]; [exact H |]. injection Er as <-. congruence.
Qed.

Lemma indexed_values {A : Type} (l : list A) :
  forall i, map snd (indexed i l) = l.
Proof. induction l as [| x l IH]; intros i; simpl; [| rewrite IH]; reflexivity. Qed.

(** No index is the key [$ref]. *)
Lemma indexed_no_ref {A : Type} (l : list A) :
  forall i, assoc "$ref" (indexed i l) = None.
Proof.
  induction l as [| x l IH]; intros i; simpl; [reflexivity |].
  rewrite IH. unfold string_of_nat.
  destruct (Nat.to_uint i); reflexivity.
Qed.

Lemma fold_left_sound {A : Type} (P : A -> Prop) (name : string)
  (f : list string -> A -> list string) (l : list A) :
  (forall refs x, In x l -> In name (f refs x) -> In name refs \/ P x) ->
  forall refs,
    In name (fold_left f l refs) -> In name refs \/ exists x, In x l /\ P x.
Proof.
  induction l as [| y l IH]; simpl; intros Hf refs H.
  - left. exact H.
  - destruct (IH (fun refs x Hx => Hf refs x (or_intror Hx)) _ H)
      as [Hin | [x [Hx Hp]]].
    + destruct (Hf refs y (or_introl eq_refl) Hin) as [Hr | Hp].
      * left. exact Hr.
      * right. exists y. auto.
    + right. exists x. auto.
Qed.

Lemma walkValue_sound (walk : value -> list string -> list string) (name : string) :
  (forall obj refs, In name (walk obj refs) -> In name refs \/ Referenced obj name) ->
  forall refs v,
    In name (walkValue walk refs v) -> In name refs \/ Referenced v name.
Proof.
  intros Hw refs v H. destruct v as [| | b | n | s | xs | kvs];
    simpl in H; try (left; exact H); try exact (Hw _ _ H).
  apply (fold_left_sound (fun x => Referenced x name)) in H.
  - destruct H as [H | [x [Hx Hr]]]; [left; exact H |].
    right. exact (Referenced_element xs x name Hx Hr).
  - intros refs' x _ Hin. exact (Hw x refs' Hin).
Qed.

Lemma get_ref_array (xs : list value) : get (VArr xs) "$ref" = VUndefined.
Proof. unfold get. simpl. rewrite indexed_no_ref. reflexivity. Qed.

(** Every name the walk adds is referenced at or below the value walked. *)
Lemma walkObject_rec_sound (name : string) :
  forall fuel obj refs,
    In name (walkObject_rec fuel obj refs) -> In name refs \/ Referenced obj name.
Proof.
  induction fuel as [| fuel IH]; intros obj refs H;
    cbn [walkObject_rec] in H; unfold walkObject_body in H.
  - left. exact H.
  - destruct (negb (truthy obj) || negb (typeof obj =? "object")) eqn:C;
      [left; exact H |].
    apply (fold_left_sound (fun v => Referenced v name)) in H;
      [| intros refs' v _ Hin; exact (walkValue_sound _ name IH refs' v Hin)].
    destruct obj as [| | b | n | s | xs | kvs];
      cbn in C; try rewrite orb_true_r in C; try discriminate C.
    + (* an array *)
      rewrite get_ref_array in H. cbn [truthy own_entries] in H.
      rewrite indexed_values in H.
      destruct H as [H | [x [Hx Hr]]]; [left; exact H |].
      right. exact (Referenced_element xs x name Hx Hr).
    + (* an object *)
      destruct H as [H | [v [Hv Hr]]].
      * destruct (truthy (get (VObj kvs) "$ref")); [| left; exact H].
        apply addRef_In in H. destruct H as [H | [r [Er [Hp ->]]]]; [left; exact H |].
        right. apply Referenced_here; [| exact Hp].
        unfold get in Er. simpl in Er.
        destruct (assoc "$ref" kvs); [congruence | discriminate Er].
      * cbn [own_entries] in Hv. apply in_map_iff in Hv.
        destruct Hv as [[k v'] [E Hin]].
        simpl in E. subst v'. right. exact (Referenced_member kvs k v name Hin Hr).
Qed.

Lemma fold_left_mono {A : Type} (name : string)
  (f : list string -> A -> list string) :
  (forall refs x, In name refs -> In name (f refs x)) ->
  forall l refs, In name refs -> In name (fold_left f l refs).
Proof.
  intros Hf l. induction l as [| y l IH]; simpl; intros refs H.
  - exact H.
  - apply IH. apply Hf. exact H.
Qed.

Lemma fold_left_complete {A : Type} (name : string)
  (f : list string -> A -> list string) :
  (forall refs x, In name refs -> In name (f refs x)) ->
  forall l x, In x l -> (forall refs, In name (f refs x)) ->
  forall refs, In name (fold_left f l refs).
Proof.
  intros Hf l. induction l as [| y l IH]; simpl; intros x Hx Hc refs.
  - contradiction.
  - destruct Hx as [-> | Hx].
    + apply fold_left_mono; [exact Hf | apply Hc].
    + exact (IH x Hx Hc _).
Qed.

Lemma addRef_mono (name : string) (ref : value) (refs : list string) :
  In name refs -> In name (addRef ref refs).
Proof. intros H. apply addRef_In. left. exact H. Qed.

Lemma walkValue_mono (walk : value -> list string -> list string) (name : string) :
  (forall obj refs, In name refs -> In name (walk obj refs)) ->
  forall refs v, In name refs -> In name (walkValue walk refs v).
Proof.
  intros Hw refs v H. destruct v as [| | b | n | s | xs | kvs]; simpl;
    try exact H; try exact (Hw _ _ H).
  apply fold_left_mono; [| exact H]. intros refs' x. apply Hw.
Qed.

(** The walk never removes a name. *)
Lemma walkObject_rec_mono (name : string) :
  forall fuel obj refs,
    In name refs -> In name (walkObject_rec fuel obj refs).
Proof.
  induction fuel as [| fuel IH]; intros obj refs H;
    cbn [walkObject_rec]; unfold walkObject_body.
  - exact H.
  - destruct (negb (truthy obj) || negb (typeof obj =? "object")); [exact H |].
    apply fold_left_mono.
    + intros refs' v. apply walkValue_mono. exact IH.
    + destruct (truthy (get obj "$ref")); [apply addRef_mono |]; exact H.
Qed.

Lemma depth_element (xs : list value) (x : value) :
  In x xs -> depth x < depth (VArr xs).
Proof.
  intros H. cbn [depth]. apply Nat.lt_succ_r.
  induction xs as [| y xs IH]; [contradiction H |].
  cbn [fold_right]. destruct H as [-> | H]; [lia |].
  specialize (IH H). lia.
Qed.

Lemma depth_member (kvs : list (string * value)) (k : string) (v : value) :
  In (k, v) kvs -> depth v < depth (VObj kvs).
Proof.
  intros H. cbn [depth]. apply Nat.lt_succ_r.
  induction kvs as [| kv kvs IH]; [contradiction H |].
  cbn [fold_right]. destruct H as [-> | H]; [simpl; lia |].
  specialize (IH H). lia.
Qed.

Lemma walkValue_complete (walk : value -> list string -> list string)
  (name : string) (fuel : nat) :
  (forall obj refs, In name refs -> In name (walk obj refs)) ->
  (forall obj refs, depth obj < fuel -> Referenced obj name ->
                    In name (walk obj refs)) ->
  forall v refs, depth v < fuel -> Referenced v name ->
                 In name (walkValue walk refs v).
Proof.
  intros Hm Hw v refs Hd Hr. destruct Hr as [kvs r Ha Hp | kvs k v name Hin Hr | xs x name Hin Hr].
  - simpl. apply Hw; [exact Hd | exact (Referenced_here kvs r Ha Hp)].
  - simpl. apply Hw; [exact Hd | exact (Referenced_member kvs k v name Hin Hr)].
  - simpl. apply (fold_left_complete name _ (fun refs' x' => Hm x' refs') xs x Hin).
    intros refs'. apply Hw; [| exact Hr].
    pose proof (depth_element xs x Hin). lia.
Qed.

(** With fuel above the depth of the value, the walk finds every name
    referenced at or below it. *)
Lemma walkObject_rec_complete (name : string) :
  forall fuel obj refs,
    depth obj < fuel -> Referenced obj name ->
    In name (walkObject_rec fuel obj refs).
Proof.
  induction fuel as [| fuel IH]; intros obj refs Hd Hr; [lia |].
  cbn [walkObject_rec]. unfold walkObject_body.
  assert (Hstep : forall refs' v, In name refs' ->
                    In name (walkValue (walkObject_rec fuel) refs' v)).
  { intros refs' v. apply walkValue_mono. apply walkObject_rec_mono. }
  destruct Hr as [kvs r Ha Hp | kvs k v name Hin Hr | xs x name Hin Hr].
  - cbn [truthy typeof negb orb String.eqb Ascii.eqb Bool.eqb].
    apply fold_left_mono; [exact Hstep |].
    rewrite (get_member kvs "$ref" (VStr r) Ha), (startsWith_truthy r Hp).
    apply addRef_In. right. exists r. auto.
  - cbn [truthy typeof negb orb String.eqb Ascii.eqb Bool.eqb].
    apply (fold_left_complete name _ Hstep _ v).
    + cbn [own_entries]. apply in_map_iff. exists (k, v). auto.
    + intros refs'.
      apply (walkValue_complete _ name fuel (walkObject_rec_mono name fuel) IH);
        [| exact Hr].
      pose proof (depth_member kvs k v Hin). lia.
  - cbn [truthy typeof negb orb String.eqb Ascii.eqb Bool.eqb].
    apply (fold_left_complete name _ Hstep _ x).
    + cbn [own_entries]. rewrite indexed_values. exact Hin.
    + intros refs'.
      apply (walkValue_complete _ name fuel (walkObject_rec_mono name fuel) IH);
        [| exact Hr].
      pose proof (depth_element xs x Hin). lia.
Qed.

Lemma Referenced_truthy (v : value) (name : string) :
  Referenced v name -> truthy v = true.
Proof. intros H. destruct H; reflexivity. Qed.

(** The walk from an empty set: exactly the names referenced under the
    value. *)
Lemma walkObject_spec (obj : value) (name : string) :
  In name (walkObject obj []) <-> Referenced obj name.
Proof.
  unfold walkObject. split; intros H.
  - apply walkObject_rec_sound in H. destruct H as [H | H]; [contradiction H | exact H].
  - apply walkObject_rec_complete; [lia | exact H].
Qed.

Lemma seeds_In (c : string -> bool) (l : list string) :
  forall refs x,
    In x (fold_left (fun refs schema => if c schema then set_add refs schema else refs)
            l refs) <->
    In x refs \/ (In x l /\ c x = true).
Proof.
  induction l as [| s l IH]; simpl; intros refs x.
  - tauto.
  - rewrite IH. destruct (c s) eqn:Hc.
    + rewrite set_add_In. intuition (subst; auto).
    + intuition (subst; auto; congruence).
Qed.

Lemma truthy_get_key (v : value) (key : string) :
  truthy (get v key) = true -> key <> "length" -> In key (keys_of v).
Proof.
  intros H Hk. unfold keys_of. apply assoc_keys. intros E.
  unfold get in H. rewrite E in H. apply String.eqb_neq in Hk.
  destruct v; try discriminate H; rewrite Hk in H; discriminate H.
Qed.

Lemma set_add_NoDup (refs : list string) (name : string) :
  NoDup refs -> NoDup (set_add refs name).
Proof.
  intros H. unfold set_add. destruct (includes refs name) eqn:E; [exact H |].
  apply NoDup_app; [exact H | repeat constructor; intros [] | ].
  intros x Hx [<- | []]. apply includes_In in Hx. congruence.
Qed.

Lemma addRef_NoDup (ref : value) (refs : list string) :
  NoDup refs -> NoDup (addRef ref refs).
Proof.
  intros H. unfold addRef. destruct ref; try exact H.
  destruct (truthy (VStr s) && startsWith s schema_prefix); [| exact H].
  apply set_add_NoDup. exact H.
Qed.

Lemma fold_left_NoDup {A : Type} (f : list string -> A -> list string) :
  (forall refs x, NoDup refs -> NoDup (f refs x)) ->
  forall l refs, NoDup refs -> NoDup (fold_left f l refs).
Proof.
  intros Hf l. induction l as [| y l IH]; simpl; intros refs H.
  - exact H.
  - apply IH. apply Hf. exact H.
Qed.

(** The set holds no name twice. *)
Lemma walkObject_rec_NoDup :
  forall fuel obj refs, NoDup refs -> NoDup (walkObject_rec fuel obj refs).
Proof.
  induction fuel as [| fuel IH]; intros obj refs H;
    cbn [walkObject_rec]; unfold walkObject_body.
  - exact H.
  - destruct (negb (truthy obj) || negb (typeof obj =? "object")); [exact H |].
    apply fold_left_NoDup.
    + intros refs' v Hn. destruct v; simpl; try exact Hn; try exact (IH _ _ Hn).
      apply fold_left_NoDup; [| exact Hn]. intros refs'' x. apply IH.
    + destruct (truthy (get obj "$ref")); [apply addRef_NoDup |]; exact H.
Qed.

(** C3, as the code has it. A name is in the reference set exactly when it
    is the stripped target of an internal-schema [$ref] found on an object
    under [paths], or one of the four seed names whose entry in
    [components.schemas] is truthy.  A seed name in the set for that reason
    is a key of [components.schemas]; a name found under [paths] need not
    be.  The set holds no name twice. *)
Theorem collectReferencedSchemas_spec (spec : value) (refs : list string) :
  collectReferencedSchemas spec = Return refs ->
  (forall name,
      In name refs <->
      Referenced (get spec "paths") name \/
      (In name seedSchemas /\
       truthy (get (get (get spec "components") "schemas") name) = true)) /\
  (forall name,
      In name seedSchemas ->
      truthy (get (get (get spec "components") "schemas") name) = true ->
      In name (keys_of (get (get spec "components") "schemas"))) /\
  NoDup refs.
Proof.
  unfold collectReferencedSchemas. intros H. returned.
  apply prop_Return in Ha, Ha0. destruct Ha as [-> _]. destruct Ha0 as [-> _].
  subst refs. split; [| split].
  - intros name.
    pose proof (seeds_In
                  (fun schema =>
                     truthy (opt (opt (get spec "components") "schemas") schema))
                  seedSchemas
                  (if truthy (get spec "paths")
                   then walkObject (get spec "paths") [] else [])
                  name) as Hs.
    cbv beta in Hs. rewrite Hs, !opt_get. clear Hs.
    assert (Hw : In name (if truthy (get spec "paths")
                          then walkObject (get spec "paths") [] else [])
                 <-> Referenced (get spec "paths") name).
    { destruct (truthy (get spec "paths")) eqn:Ht; [apply walkObject_spec |].
      split; [contradiction |]. intros Hr. apply Referenced_truthy in Hr. congruence. }
    rewrite Hw. reflexivity.
  - intros name Hs Ht. apply truthy_get_key; [exact Ht |].
    intros ->. simpl in Hs. repeat destruct Hs as [Hs | Hs]; try discriminate Hs.
    contradiction.
  - assert (Hw : NoDup (if truthy (get spec "paths")
                         then walkObject (get spec "paths") [] else [])).
    { destruct (truthy (get spec "paths")); [| constructor].
      apply walkObject_rec_NoDup. constructor. }
    revert Hw. generalize (if truthy (get spec "paths")
                           then walkObject (get spec "paths") [] else []).
    intros refs Hn. unfold seedSchemas. cbn [fold_left].
    repeat match goal with
           | |- NoDup (if ?c then _ else _) => destruct c
           | |- NoDup (set_add _ _) => apply set_add_NoDup
           end; exact Hn.
Qed.

(** C3 fails on the code: [Order] is referenced under [paths] and enters
    the reference set, yet it is no key of [components.schemas]. *)
Lemma collectReferencedSchemas_spec_counterexample :
  collectReferencedSchemas dangling_reference = Return ["Order"] /\
  keys_of (get (get dangling_reference "components") "schemas") = ["Pet"] /\
  ~ In "Order" (keys_of (get (get dangling_reference "components") "schemas")).
Proof.
  split; [reflexivity |]. split; [reflexivity |].
  intros [H | H]; [discriminate H | exact H].
Qed.

Lemma collectReferencedSchemas_spec_witness :
  (In "Order" ["Order"] <->
   Referenced (get dangling_reference "paths") "Order" \/
   (In "Order" seedSchemas /\
    truthy (get (get (get dangling_reference "components") "schemas") "Order")
    = true)) /\
  NoDup ["Order"].
Proof.
  pose proof (collectReferencedSchemas_spec dangling_reference ["Order"] eq_refl)
    as [H [_ Hn]].
  split; [exact (H "Order") | exact Hn].
Defined.

(** ** The fuel is enough *)

Lemma fold_left_ext {A B : Type} (f g : B -> A -> B) (l : list A) :
  (forall acc x, In x l -> f acc x = g acc x) ->
  forall acc, fold_left f l acc = fold_left g l acc.
Proof.
  induction l as [| y l IH]; simpl; intros H acc; [reflexivity |].
  rewrite (H acc y (or_introl eq_refl)).
  apply IH. intros acc' x Hx. apply H. right. exact Hx.
Qed.

Lemma forEach_ext {A S : Type} (f g : S -> A -> result S) (l : list A) :
  (forall s x, In x l -> f s x = g s x) ->
  forall s, forEach f l s = forEach g l s.
Proof.
  induction l as [| y l IH]; simpl; intros H s; [reflexivity |].
  rewrite (H s y (or_introl eq_refl)). destruct (g s y) as [s' | e]; simpl.
  - apply IH. intros s'' x Hx. apply H. right. exact Hx.
  - reflexivity.
Qed.

Lemma assoc_In {A : Type} (key : string) (kvs : list (string * A)) (x : A) :
  assoc key kvs = Some x -> exists k, In (k, x) kvs.
Proof.
  induction kvs as [| [k y] kvs IH]; simpl; intros H; [discriminate H |].
  destruct (k =? key).
  - injection H as ->. exists k. left. reflexivity.
  - destruct (IH H) as [k' Hk]. exists k'. right. exact Hk.
Qed.

(** A value below an object or an array is less deep than it. *)
Lemma depth_value (obj v : value) :
  negb (truthy obj) || negb (typeof obj =? "object") = false ->
  In v (map snd (own_entries obj)) -> depth v < depth obj.
Proof.
  intros C H. destruct obj as [| | b | n | s | xs | kvs];
    cbn in C; try rewrite orb_true_r in C; try discriminate C.
  - cbn [own_entries] in H. rewrite indexed_values in H.
    exact (depth_element xs v H).
  - cbn [own_entries] in H. apply in_map_iff in H.
    destruct H as [[k v'] [E Hin]]. simpl in E. subst v'.
    exact (depth_member kvs k v Hin).
Qed.

Lemma depth_get (obj : value) (key : string) :
  negb (truthy obj) || negb (typeof obj =? "object") = false ->
  depth (get obj key) < depth obj.
Proof.
  intros C. unfold get. destruct (assoc key (own_entries obj)) as [x |] eqn:E.
  - apply assoc_In in E. destruct E as [k Hk].
    apply (depth_value obj x C). apply in_map_iff. exists (k, x). auto.
  - destruct obj as [| | b | n | s | xs | kvs];
      cbn in C; try rewrite orb_true_r in C; try discriminate C.
    + destruct (key =? "length"); apply Nat.lt_0_succ.
    + apply Nat.lt_0_succ.
Qed.

(** The entries of a value are no deeper than it. *)
Lemma depth_entry (v : value) (kp : string * value) :
  In kp (own_entries v) -> depth (snd kp) <= depth v.
Proof.
  intros H. destruct v as [| | b | n | s | xs | kvs]; cbn [own_entries] in H;
    try contradiction H.
  - assert (Hs : In (snd kp) (code_units s)).
    { rewrite <- (indexed_values (code_units s) 0). apply in_map. exact H. }
    unfold code_units in Hs. apply in_map_iff in Hs. destruct Hs as [c [<- _]].
    cbn [depth]. lia.
  - assert (Hs : In (snd kp) xs).
    { rewrite <- (indexed_values xs 0). apply in_map. exact H. }
    pose proof (depth_element xs _ Hs). lia.
  - destruct kp as [k x]. pose proof (depth_member kvs k x H). cbn [snd]. lia.
Qed.

Lemma walkValue_ext (f g : value -> list string -> list string) (v : value) :
  (forall x refs, depth x <= depth v -> f x refs = g x refs) ->
  forall refs, walkValue f refs v = walkValue g refs v.
Proof.
  intros H refs. destruct v as [| | b | n | s | xs | kvs]; simpl;
    try reflexivity; try (apply H; lia).
  apply fold_left_ext. intros acc x Hx. apply H.
  pose proof (depth_element xs x Hx). lia.
Qed.

(** Once above the depth of the value, more fuel changes nothing. *)
Lemma walkObject_rec_stable :
  forall n m obj refs,
    depth obj < n -> depth obj < m ->
    walkObject_rec n obj refs = walkObject_rec m obj refs.
Proof.
  induction n as [| n IH]; intros m obj refs Hn Hm; [lia |].
  destruct m as [| m]; [lia |].
  cbn [walkObject_rec]. unfold walkObject_body.
  destruct (negb (truthy obj) || negb (typeof obj =? "object")) eqn:C;
    [reflexivity |].
  apply fold_left_ext. intros acc v Hv.
  pose proof (depth_value obj v C Hv) as Hd.
  apply walkValue_ext. intros x refs' Hx. apply IH; lia.
Qed.

(** [walkObject] satisfies the recursive equation of the source. *)
Lemma walkObject_unfold (obj : value) (refs : list string) :
  walkObject obj refs = walkObject_body walkObject obj refs.
Proof.
  unfold walkObject at 1. cbn [walkObject_rec]. unfold walkObject_body.
  destruct (negb (truthy obj) || negb (typeof obj =? "object")) eqn:C;
    [reflexivity |].
  apply fold_left_ext. intros acc v Hv.
  pose proof (depth_value obj v C Hv) as Hd.
  apply walkValue_ext. intros x refs' Hx.
  unfold walkObject. apply walkObject_rec_stable; lia.
Qed.

Lemma simplifySchema_body_ext (f g : value -> result value) (schema : value) :
  (forall x, depth x < depth schema -> f x = g x) ->
  simplifySchema_body f schema = simplifySchema_body g schema.
Proof.
  intros H. unfold simplifySchema_body.
  destruct (negb (truthy schema) || negb (typeof schema =? "object")) eqn:C;
    [reflexivity |].
  assert (Hp : forall acc,
             forEach
               (fun props kp =>
                  simplifiedProp <- f (snd kp) ;;
                  Return (simplifyProperty props (fst kp) simplifiedProp))
               (own_entries (get schema "properties")) acc
             = forEach
                 (fun props kp =>
                    simplifiedProp <- g (snd kp) ;;
                    Return (simplifyProperty props (fst kp) simplifiedProp))
                 (own_entries (get schema "properties")) acc).
  { apply forEach_ext. intros s kp Hkp. rewrite H; [reflexivity |].
    pose proof (depth_entry _ kp Hkp). pose proof (depth_get schema "properties" C).
    lia. }
  rewrite Hp, (H (get schema "items") (depth_get schema "items" C)).
  reflexivity.
Qed.

(** Once above the depth of the schema, more fuel changes nothing. *)
Lemma simplifySchema_rec_stable :
  forall n m schema,
    depth schema < n -> depth schema < m ->
    simplifySchema_rec n schema = simplifySchema_rec m schema.
Proof.
  induction n as [| n IH]; intros m schema Hn Hm; [lia |].
  destruct m as [| m]; [lia |].
  cbn [simplifySchema_rec]. apply simplifySchema_body_ext.
  intros x Hx. apply IH; lia.
Qed.

(** [simplifySchema] satisfies the recursive equation of the source. *)
Lemma simplifySchema_unfold (schema : value) :
  simplifySchema schema = simplifySchema_body simplifySchema schema.
Proof.
  unfold simplifySchema at 1. cbn [simplifySchema_rec].
  apply simplifySchema_body_ext. intros x Hx.
  unfold simplifySchema. apply simplifySchema_rec_stable; lia.
Qed.

(** * Further properties of the engine *)

(** ** The pipeline as a whole *)

Section PipelineRuns.

Variable JSON_parse : string -> result value.
Variable JSON_stringify : value -> string.


(** X2. A text that [JSON.parse] rejects and the loaded YAML parser accepts
    is processed from the YAML tree: the output is the serialized
    simplification of that tree with no error, or, when the simplification
    throws, the empty text with the error reported. *)
Theorem processSpec_yaml_input (st : State) (load : string -> result value)
  (e : exn) (v : value) :
  all_whitespace (inputSpec st) = false ->
  yamlParser st = Some load ->
  JSON_parse (inputSpec st) = Throw e ->
  load (inputSpec st) = Return v ->
  parseSpec JSON_parse (Some load) (inputSpec st) = Return v /\
  (forall simplified, simplifySpec v = Return simplified ->
     outputSpec (processSpec JSON_parse JSON_stringify st) = JSON_stringify simplified /\
     error (processSpec JSON_parse JSON_stringify st) = "") /\
  (forall err, simplifySpec v = Throw err ->
     outputSpec (processSpec JSON_parse JSON_stringify st) = "" /\
     error (processSpec JSON_parse JSON_stringify st)
     = "Error processing spec: " ++ message err).
Proof.
  intros Hb Hy Hj Hl.
  assert (Hp : parseSpec JSON_parse (Some load) (inputSpec st) = Return v).
  { unfold parseSpec. rewrite Hj, Hl. reflexivity. }
  split; [exact Hp |].
  split; intros r Hs; unfold processSpec;
    rewrite (trim_not_blank _ Hb), Hy; cbn; rewrite Hy, Hp; cbn; rewrite Hs;
    split; reflexivity.
Qed.

(** X3. A run never touches the input text or the parser.  After a run on a
    blank input, or with the YAML parser loaded, the output and the error
    are never both set, and the busy flag is down whenever the parser was
    loaded and the input not blank. *)
Theorem processSpec_output_or_error (st : State) :
  inputSpec (processSpec JSON_parse JSON_stringify st) = inputSpec st /\
  yamlParser (processSpec JSON_parse JSON_stringify st) = yamlParser st /\
  (all_whitespace (inputSpec st) = true \/ yamlParser st <> None ->
   outputSpec (processSpec JSON_parse JSON_stringify st) = "" \/
   error (processSpec JSON_parse JSON_stringify st) = "") /\
  (all_whitespace (inputSpec st) = false -> yamlParser st <> None ->
   isProcessing (processSpec JSON_parse JSON_stringify st) = false).
Proof.
  destruct st as [input output err busy yaml]. unfold processSpec.
  cbn [inputSpec yamlParser].
  destruct (trim input =? "") eqn:B.
  - repeat split; try (intros; left; reflexivity).
    intros Hw _. apply String.eqb_eq in B. apply trim_blank in B. congruence.
  - destruct yaml as [load |]; cbn.
    + destruct (parsed <- parseSpec JSON_parse (Some load) input ;;
                simplified <- simplifySpec parsed ;;
                Return (JSON_stringify simplified)); cbn;
        repeat split; intros; auto.
    + repeat split.
      * intros [Hw | Hy]; [| contradiction Hy; reflexivity].
        apply trim_blank in Hw. rewrite Hw in B. discriminate B.
      * intros _ Hy. contradiction Hy. reflexivity.
Qed.

End PipelineRuns.

Lemma processSpec_yaml_input_witness :
  outputSpec (processSpec Host.parse Host.stringify
                (mkState "a: 1" "" "" false (Some Host.load)))
  = Host.stringify (VObj [("endpoints", VArr [])]).
Proof.
  pose proof (processSpec_yaml_input Host.parse Host.stringify
                (mkState "a: 1" "" "" false (Some Host.load)) Host.load
                (SyntaxError "Unexpected token in JSON")
                (VObj [("a", VNum (Int 1))]) eq_refl eq_refl eq_refl eq_refl)
    as [_ [Hok _]].
  exact (proj1 (Hok _ eq_refl)).
Defined.

Lemma processSpec_output_or_error_witness :
  outputSpec (processSpec Host.parse Host.stringify
                (mkState "{" "{}" "" false (Some Host.load))) = "" \/
  error (processSpec Host.parse Host.stringify
           (mkState "{" "{}" "" false (Some Host.load))) = "".
Proof.
  apply (processSpec_output_or_error Host.parse Host.stringify
           (mkState "{" "{}" "" false (Some Host.load))).
  right. discriminate.
Defined.

(** ** The orchestrator: the members of the compact document *)

Lemma Object_keys_Return (v : value) (ks : list string) :
  Object_keys v = Return ks -> ks = keys_of v.
Proof.
  unfold Object_keys. intros H. returned. apply Object_entries_Return in Ha.
  subst. reflexivity.
Qed.

Lemma simplifySpec_members (spec out : value) (refs : list string) :
  simplifySpec spec = Return out ->
  collectReferencedSchemas spec = Return refs ->
  exists endpoints o,
    out = VObj o /\
    endpointsOf (get spec "paths") = Return endpoints /\
    assoc "host" o = (if truthy (host_of spec) then Some (host_of spec) else None) /\
    assoc "sec" o =
      (if truthy (secSchemes_of spec)
       then Some (VArr (map VStr (keys_of (secSchemes_of spec)))) else None) /\
    assoc "endpoints" o = Some (VArr endpoints) /\
    map fst o =
      ((if truthy (host_of spec) then ["host"] else []) ++
       (if truthy (secSchemes_of spec) then ["sec"] else []) ++
       ["endpoints"] ++
       (if negb (List.length refs =? 0)%nat
           && truthy (get (get spec "components") "schemas")
        then ["schemas"] else []))%list.
Proof.
  unfold simplifySpec. intros H Hr. returned.
  apply prop_Return in Ha, Ha0, Ha1, Ha2, Ha4.
  destruct Ha as [-> _], Ha0 as [-> _], Ha1 as [-> _], Ha2 as [-> _], Ha4 as [-> _].
  rewrite Hr in Ha6. injection Ha6 as <-.
  rewrite !opt_get in *.
  unfold host_of. fold (secSchemes_of spec) in Ha3.
  set (url := get (get (get spec "servers") "0") "url") in *.
  set (legacy := get spec "host") in *.
  set (sec := secSchemes_of spec) in *.
  set (schemas := get (get spec "components") "schemas") in *.
  exists a5.
  destruct (truthy url) eqn:Eu; [| destruct (truthy legacy) eqn:El];
    (destruct (truthy sec) eqn:Es;
     [ returned; apply Object_keys_Return in Ha; subst | returned; subst ]);
    (destruct (negb (List.length refs =? 0)%nat && truthy schemas);
     [ returned; subst | returned; subst ]);
    eexists; (split; [reflexivity |]); (split; [exact Ha5 |]);
    cbn; rewrite ?Eu, ?El; repeat split.
Qed.

(** X4. The [host] of the compact document is [servers[0].url] when that is
    truthy, else the legacy [host] when that is truthy, and is left out
    otherwise; [sec] lists the keys of [components.securitySchemes] when
    that is truthy, else those of the legacy [securityDefinitions], and is
    left out when neither is truthy. *)
Theorem simplifySpec_host_sec (spec out : value) :
  simplifySpec spec = Return out ->
  get out "host" = host_of spec /\
  get out "sec" =
    (if truthy (secSchemes_of spec)
     then VArr (map VStr (keys_of (secSchemes_of spec))) else VUndefined).
Proof.
  intros H.
  destruct (collectReferencedSchemas spec) as [refs | e] eqn:Hr.
  - destruct (simplifySpec_members spec out refs H Hr)
      as [endpoints [o [-> [_ [Hh [Hs _]]]]]].
    unfold get. cbn [own_entries]. rewrite Hh, Hs. split.
    + unfold host_of.
      destruct (truthy (get (get (get spec "servers") "0") "url")) eqn:Eu.
      * rewrite Eu. reflexivity.
      * destruct (truthy (get spec "host")) eqn:El; [rewrite El |]; reflexivity.
    + destruct (truthy (secSchemes_of spec)); reflexivity.
  - unfold simplifySpec in H. returned. congruence.
Qed.

(** X5. The members of the compact document come in the order [host],
    [sec], [endpoints], [schemas]; [endpoints] is always there, and
    [schemas] is there exactly when the reference set is not empty and
    [components.schemas] is truthy (a document that keeps its schemas under
    the legacy [definitions] gets none). *)
Theorem simplifySpec_keys (spec out : value) (refs : list string) :
  simplifySpec spec = Return out ->
  collectReferencedSchemas spec = Return refs ->
  keys_of out =
    ((if truthy (host_of spec) then ["host"] else []) ++
     (if truthy (secSchemes_of spec) then ["sec"] else []) ++
     ["endpoints"] ++
     (if negb (List.length refs =? 0)%nat
         && truthy (get (get spec "components") "schemas")
      then ["schemas"] else []))%list.
Proof.
  intros H Hr.
  destruct (simplifySpec_members spec out refs H Hr)
    as [endpoints [o [-> [_ [_ [_ [_ Hk]]]]]]].
  exact Hk.
Qed.

Lemma simplifySpec_host_sec_witness :
  exists out,
    simplifySpec legacy_document = Return out /\
    get out "host" = VStr "api.example.com" /\
    get out "sec" = VArr [VStr "api_key"].
Proof.
  destruct (simplifySpec legacy_document) as [out | e] eqn:E;
    [| vm_compute in E; discriminate E].
  exists out. split; [reflexivity |].
  exact (simplifySpec_host_sec legacy_document out E).
Defined.

Lemma simplifySpec_keys_witness :
  exists out,
    simplifySpec legacy_document = Return out /\
    keys_of out = ["host"; "sec"; "endpoints"].
Proof.
  destruct (simplifySpec legacy_document) as [out | e] eqn:E;
    [| vm_compute in E; discriminate E].
  exists out. split; [reflexivity |].
  exact (simplifySpec_keys legacy_document out [] E eq_refl).
Defined.

(** ** Documents that are not mappings *)

Lemma string_of_nat_head (i : nat) :
  match string_of_nat i with
  | String d _ => is_digit d = true
  | EmptyString => True
  end.
Proof. unfold string_of_nat. destruct (Nat.to_uint i); simpl; auto. Qed.

Lemma indexed_no_name {A : Type} (key : string) (l : list A) :
  is_name key = true -> forall i, assoc key (indexed i l) = None.
Proof.
  intros Hk. induction l as [| x l IH]; intros i; simpl; [reflexivity |].
  rewrite IH. destruct (string_of_nat i =? key) eqn:E; [| reflexivity].
  apply String.eqb_eq in E. pose proof (string_of_nat_head i) as Hd.
  rewrite E in Hd. destruct key as [| c key]; [discriminate Hk |].
  simpl in Hk. rewrite Hd in Hk. discriminate Hk.
Qed.

(** Reading a name from a scalar or an array gives [undefined]. *)
Lemma get_not_mapping (v : value) (key : string) :
  is_mapping v = false -> is_name key = true -> get v key = VUndefined.
Proof.
  intros Hm Hk.
  assert (Hl : (key =? "length") = false).
  { destruct key as [| c key]; [discriminate Hk |].
    cbn [is_name] in Hk. apply andb_true_iff in Hk. destruct Hk as [_ Hk].
    apply negb_true_iff in Hk. exact Hk. }
  destruct v as [| | b | n | s | xs | kvs]; try reflexivity; try discriminate Hm;
    unfold get; cbn [own_entries]; rewrite (indexed_no_name key _ Hk), Hl;
    reflexivity.
Qed.

(** X6. A document that is [null] or [undefined] makes the simplifier throw
    a [TypeError]; a document that is a scalar or an array (anything else
    that is not a mapping) compacts, without error, to the document with an
    empty [endpoints] list and nothing else. *)
Theorem simplifySpec_not_a_mapping (spec : value) :
  is_mapping spec = false ->
  if nullish spec
  then exists m, simplifySpec spec = Throw (TypeError m)
  else simplifySpec spec = Return (VObj [("endpoints", VArr [])]).
Proof.
  intros Hm. destruct (nullish spec) eqn:Hn.
  - destruct spec; try discriminate Hn; eexists; reflexivity.
  - assert (Hp : forall key, is_name key = true -> prop spec key = Return VUndefined).
    { intros key Hk. rewrite <- (get_not_mapping spec key Hm Hk).
      destruct spec; try discriminate Hn; reflexivity. }
    unfold simplifySpec, collectReferencedSchemas.
    rewrite !Hp by reflexivity. reflexivity.
Qed.

Lemma simplifySpec_not_a_mapping_witness :
  simplifySpec (VArr [VStr "paths"]) = Return (VObj [("endpoints", VArr [])]) /\
  exists m, simplifySpec VNull = Throw (TypeError m).
Proof.
  split.
  - exact (simplifySpec_not_a_mapping (VArr [VStr "paths"]) eq_refl).
  - exact (simplifySpec_not_a_mapping VNull eq_refl).
Defined.

(** ** The descriptor of an operation *)

Lemma filterM_Return {A : Type} (f : A -> result bool) (g : A -> bool)
  (l r : list A) :
  (forall x b, In x l -> f x = Return b -> b = g x) ->
  filterM f l = Return r -> r = filter g l.
Proof.
  revert r. induction l as [| x l IH]; simpl; intros r Hf H.
  - injection H as <-. reflexivity.
  - returned. subst r. rewrite (Hf x a (or_introl eq_refl) Ha).
    rewrite (IH a0 (fun y b Hy => Hf y b (or_intror Hy)) Ha0). reflexivity.
Qed.

Lemma params_in_Return (place : string) (ps r : list value) :
  params_in place ps = Return r ->
  r = filter (fun p => is_string (get p "in") place) ps.
Proof.
  unfold params_in. apply filterM_Return. intros p b _ H. returned.
  apply prop_Return in Ha. destruct Ha as [-> _]. congruence.
Qed.

Lemma get_falsy (v : value) (key : string) :
  truthy v = false -> is_name key = true -> get v key = VUndefined.
Proof.
  intros Hv Hk. apply get_not_mapping; [| exact Hk].
  destruct v; try reflexivity; discriminate Hv.
Qed.

Lemma get_undefined (key : string) : get VUndefined key = VUndefined.
Proof. reflexivity. Qed.

Lemma params_at_falsy (place : string) (operation : value) :
  truthy (get operation "parameters") = false -> params_at place operation = [].
Proof.
  unfold params_at. destruct (get operation "parameters"); try reflexivity.
  intros H. discriminate H.
Qed.

Lemma request_ref_falsy (operation : value) :
  truthy (get operation "requestBody") = false ->
  request_ref operation = VUndefined.
Proof.
  intros H. unfold request_ref.
  rewrite (get_falsy _ "content" H eq_refl). reflexivity.
Qed.

(** The members of a descriptor, one stage of [endpointOf] after the
    other. *)
Lemma endpointOf_members (method path : string) (operation e : value) :
  endpointOf method path operation = Return e ->
  exists o,
    e = VObj o /\
    map fst o =
      (["m"; "p"] ++
       (if truthy (description_of operation) then ["desc"] else []) ++
       (if negb (List.length (params_at "path" operation) =? 0)%nat
        then ["pp"] else []) ++
       (if negb (List.length (params_at "query" operation) =? 0)%nat
        then ["qp"] else []) ++
       (if truthy (request_ref operation) then ["req"] else []) ++
       (if truthy (response_ref operation) then ["res"] else []) ++
       ["codes"])%list /\
    assoc "req" o =
      (if truthy (request_ref operation)
       then Some (cleanSchemaRef (request_ref operation)) else None) /\
    assoc "res" o =
      (if truthy (response_ref operation)
       then Some (cleanSchemaRef (response_ref operation)) else None) /\
    (forall pp, assoc "pp" o = Some pp ->
       exists strs, mapM pathParamStr (params_at "path" operation) = Return strs /\
                    pp = VArr (map VStr strs)) /\
    (forall qp, assoc "qp" o = Some qp ->
       exists strs, mapM queryParamStr (params_at "query" operation) = Return strs /\
                    qp = VArr (map VStr strs)).
Proof.
  unfold endpointOf. intros H. returned.
  apply prop_Return in Ha. destruct Ha as [-> Hn].
  assert (E0 : truncateDescription a0 100 = description_of operation).
  { unfold description_of, or_else. destruct (truthy (get operation "summary")).
    - injection Ha0 as <-. reflexivity.
    - apply prop_Return in Ha0. destruct Ha0 as [-> _]. reflexivity. }
  rewrite E0 in *. clear Ha0 E0 a0.
  apply prop_Return in Ha1, Ha3, Ha5.
  destruct Ha1 as [-> _], Ha3 as [-> _], Ha5 as [-> _].
  clear Ha6.
  rewrite !opt_get in *.
  change (get (get (get (get
            (or_else (get (get operation "responses") "200")
               (get (get operation "responses") "201"))
            "content") "application/json") "schema") "$ref")
    with (response_ref operation) in H.
  (* the request body *)
  assert (Hreq : a4 = if truthy (request_ref operation)
                      then obj_set a2 "req" (cleanSchemaRef (request_ref operation))
                      else a2).
  { destruct (truthy (get operation "requestBody")) eqn:Erb.
    - returned. apply prop_Return in Ha. destruct Ha as [-> _].
      rewrite !opt_get in Ha4. fold (request_ref operation) in Ha4.
      destruct (truthy (request_ref operation)); returned; congruence.
    - rewrite (request_ref_falsy operation Erb). cbn. congruence. }
  clear Ha4.
  (* the parameters *)
  assert (Hpar : exists pps qps,
             a2 = (let base :=
                     if truthy (description_of operation)
                     then obj_set [("m", VStr (toLowerCase method)); ("p", VStr path)]
                            "desc" (description_of operation)
                     else [("m", VStr (toLowerCase method)); ("p", VStr path)] in
                   let with_pp :=
                     if negb (List.length (params_at "path" operation) =? 0)%nat
                     then obj_set base "pp" (VArr (map VStr pps)) else base in
                   if negb (List.length (params_at "query" operation) =? 0)%nat
                   then obj_set with_pp "qp" (VArr (map VStr qps)) else with_pp) /\
             (negb (List.length (params_at "path" operation) =? 0)%nat = true ->
              mapM pathParamStr (params_at "path" operation) = Return pps) /\
             (negb (List.length (params_at "query" operation) =? 0)%nat = true ->
              mapM queryParamStr (params_at "query" operation) = Return qps)).
  { destruct (truthy (get operation "parameters")) eqn:Ep.
    - unfold params_at.
      destruct (get operation "parameters") as [| | | | | ps |];
        try discriminate Ha2.
      returned. apply params_in_Return in Ha, Ha0. subst a a0.
      destruct (negb (List.length
                        (filter (fun p => is_string (get p "in") "path") ps) =? 0)%nat);
        destruct (negb (List.length
                          (filter (fun p => is_string (get p "in") "query") ps) =? 0)%nat);
        returned; subst;
        match goal with
        | H1 : mapM pathParamStr _ = Return ?l1,
          H2 : mapM queryParamStr _ = Return ?l2 |- _ => exists l1, l2
        | H1 : mapM pathParamStr _ = Return ?l1 |- _ => exists l1, (@nil string)
        | H2 : mapM queryParamStr _ = Return ?l2 |- _ => exists (@nil string), l2
        | _ => exists (@nil string), (@nil string)
        end;
        cbv zeta; (split; [reflexivity |]);
        split; intros Hc; first [assumption | discriminate Hc].
    - rewrite !(params_at_falsy _ operation Ep). exists [], [].
      injection Ha2 as <-. cbn [List.length Nat.eqb negb].
      split; [reflexivity |]. split; intros Hc; discriminate Hc. }
  clear Ha2. destruct Hpar as [pps [qps [Hpar [Hpp Hqp]]]]. cbv zeta in Hpar.
  subst e. eexists. split; [reflexivity |].
  subst a4 a2.
  match goal with
  | |- context [obj_set _ "codes" ?c] => generalize c; intros CS
  end.
  revert Hpp Hqp.
  generalize (description_of operation). intros D.
  generalize (request_ref operation). intros RQ.
  generalize (response_ref operation). intros RS.
  generalize (params_at "path" operation). intros PP.
  generalize (params_at "query" operation). intros QP.
  destruct (truthy D); destruct (negb (List.length PP =? 0)%nat);
    destruct (negb (List.length QP =? 0)%nat); destruct (truthy RQ);
    destruct (truthy RS); intros Hpp Hqp; cbn;
    (split; [reflexivity |]); (split; [reflexivity |]); (split; [reflexivity |]);
    split; intros v Hv; try discriminate Hv; injection Hv as <-;
    eexists; (split; [| reflexivity]); auto.
Qed.

(** X7. The members of a descriptor come in the order [m], [p], [desc],
    [pp], [qp], [req], [res], [codes].  [m], [p] and [codes] are always
    there; [desc] is there when the truncated description is truthy, [pp]
    and [qp] when the operation has a parameter located in the path or in
    the query, [req] and [res] when the JSON request body or the JSON
    response has a truthy [$ref]. *)
Theorem endpointOf_keys (method path : string) (operation e : value) :
  endpointOf method path operation = Return e ->
  keys_of e =
    (["m"; "p"] ++
     (if truthy (description_of operation) then ["desc"] else []) ++
     (if negb (List.length (params_at "path" operation) =? 0)%nat
      then ["pp"] else []) ++
     (if negb (List.length (params_at "query" operation) =? 0)%nat
      then ["qp"] else []) ++
     (if truthy (request_ref operation) then ["req"] else []) ++
     (if truthy (response_ref operation) then ["res"] else []) ++
     ["codes"])%list.
Proof.
  intros H. apply endpointOf_members in H.
  destruct H as [o [-> [Hk _]]]. exact Hk.
Qed.

Lemma endpointOf_keys_witness :
  exists e,
    endpointOf "post" "/shops/{shop}/pets" create_pet = Return e /\
    keys_of e = ["m"; "p"; "desc"; "pp"; "qp"; "req"; "res"; "codes"].
Proof.
  destruct (endpointOf "post" "/shops/{shop}/pets" create_pet) as [e | x] eqn:E;
    [| vm_compute in E; discriminate E].
  exists e. split; [reflexivity |].
  exact (endpointOf_keys "post" "/shops/{shop}/pets" create_pet e E).
Defined.

(** X8. The [req] of a descriptor is the cleaned [$ref] of the JSON request
    body, the [res] the cleaned [$ref] of the JSON body of the response
    that is read, and each is left out when that [$ref] is falsy (an inline
    schema is not extracted).  The response read is the [200] entry
    whenever that entry is truthy, even when it carries no reference and
    the [201] entry does.  A reference that starts with the internal prefix
    is reported by its bare name. *)
Theorem endpointOf_references (method path : string) (operation e : value) :
  endpointOf method path operation = Return e ->
  get e "req" =
    (if truthy (request_ref operation)
     then cleanSchemaRef (request_ref operation) else VUndefined) /\
  get e "res" =
    (if truthy (response_ref operation)
     then cleanSchemaRef (response_ref operation) else VUndefined) /\
  (truthy (get (get operation "responses") "200") = true ->
   response_ref operation =
   get (get (get (get (get (get operation "responses") "200") "content")
                "application/json") "schema") "$ref") /\
  (forall r, request_ref operation = VStr r ->
             startsWith r schema_prefix = true ->
             get e "req" = VStr (replace r schema_prefix "")) /\
  (forall r, response_ref operation = VStr r ->
             startsWith r schema_prefix = true ->
             get e "res" = VStr (replace r schema_prefix "")).
Proof.
  intros H. apply endpointOf_members in H.
  destruct H as [o [-> [_ [Hq [Hs _]]]]].
  assert (Gq : get (VObj o) "req" =
               if truthy (request_ref operation)
               then cleanSchemaRef (request_ref operation) else VUndefined).
  { unfold get. cbn [own_entries]. rewrite Hq.
    destruct (truthy (request_ref operation)); reflexivity. }
  assert (Gs : get (VObj o) "res" =
               if truthy (response_ref operation)
               then cleanSchemaRef (response_ref operation) else VUndefined).
  { unfold get. cbn [own_entries]. rewrite Hs.
    destruct (truthy (response_ref operation)); reflexivity. }
  split; [exact Gq |]. split; [exact Gs |]. split; [| split].
  - intros Ht. unfold response_ref, or_else. cbv zeta. rewrite Ht. reflexivity.
  - intros r Hr Hp. rewrite Gq, Hr, (startsWith_truthy r Hp).
    unfold cleanSchemaRef. rewrite (startsWith_truthy r Hp). reflexivity.
  - intros r Hr Hp. rewrite Gs, Hr, (startsWith_truthy r Hp).
    unfold cleanSchemaRef. rewrite (startsWith_truthy r Hp). reflexivity.
Qed.

Lemma endpointOf_references_witness :
  exists e,
    endpointOf "post" "/shops/{shop}/pets" create_pet = Return e /\
    get e "req" = VStr "NewPet" /\ get e "res" = VStr "Pet".
Proof.
  destruct (endpointOf "post" "/shops/{shop}/pets" create_pet) as [e | x] eqn:E;
    [| vm_compute in E; discriminate E].
  exists e. split; [reflexivity |].
  destruct (endpointOf_references "post" "/shops/{shop}/pets" create_pet e E)
    as [Hq [Hs _]].
  split; [exact Hq | exact Hs].
Defined.

(** ** From a descriptor to the schemas map *)

Lemma Referenced_entry (obj v : value) (k name : string) :
  In (k, v) (own_entries obj) -> Referenced v name -> Referenced obj name.
Proof.
  intros Hin Hr. destruct obj as [| | b | n | s | xs | kvs];
    cbn [own_entries] in Hin; try contradiction Hin.
  - assert (Hs : In v (code_units s)).
    { rewrite <- (indexed_values (code_units s) 0).
      apply (in_map snd) in Hin. exact Hin. }
    unfold code_units in Hs. apply in_map_iff in Hs. destruct Hs as [c [<- _]].
    inversion Hr.
  - apply (Referenced_element xs v name); [| exact Hr].
    rewrite <- (indexed_values xs 0). apply (in_map snd) in Hin. exact Hin.
  - exact (Referenced_member kvs k v name Hin Hr).
Qed.

Lemma Referenced_get (obj : value) (key name : string) :
  Referenced (get obj key) name -> Referenced obj name.
Proof.
  unfold get. destruct (assoc key (own_entries obj)) as [x |] eqn:E.
  - intros Hr. apply assoc_In in E. destruct E as [k Hk].
    exact (Referenced_entry obj x k name Hk Hr).
  - intros Hr. destruct obj; try (inversion Hr; fail).
    + destruct (key =? "length"); inversion Hr.
    + destruct (key =? "length"); inversion Hr.
Qed.

(** A value whose [$ref] is an internal reference is referenced by the
    name of it. *)
Lemma Referenced_ref (v : value) (r : string) :
  get v "$ref" = VStr r -> startsWith r schema_prefix = true ->
  Referenced v (replace r schema_prefix "").
Proof.
  intros Hg Hp. destruct v as [| | b | n | s | xs | kvs];
    try (discriminate Hg).
  - unfold get in Hg. cbn [own_entries] in Hg. rewrite indexed_no_ref in Hg.
    discriminate Hg.
  - rewrite get_ref_array in Hg. discriminate Hg.
  - apply Referenced_here; [| exact Hp]. unfold get in Hg. cbn [own_entries] in Hg.
    destruct (assoc "$ref" kvs); [congruence | discriminate Hg].
Qed.

Lemma collected_when_referenced (spec : value) (refs : list string) (name : string) :
  collectReferencedSchemas spec = Return refs ->
  Referenced (get spec "paths") name -> In name refs.
Proof.
  unfold collectReferencedSchemas. intros H Hr. returned.
  apply prop_Return in Ha. destruct Ha as [-> _]. subst refs.
  pose proof (seeds_In
                (fun schema => truthy (opt (opt a0 "schemas") schema))
                seedSchemas
                (if truthy (get spec "paths")
                 then walkObject (get spec "paths") [] else [])
                name) as Hs.
  cbv beta in Hs. apply Hs. left.
  rewrite (Referenced_truthy _ _ Hr). apply walkObject_spec. exact Hr.
Qed.

(** X9. Direct references are closed: when the simplifier completes, every
    schema that an operation under [paths] names by an internal reference
    in its JSON request body or in the JSON response it reads, and that
    [components.schemas] defines with a truthy entry, is a key of the
    output [schemas] map ([__proto__] apart). *)
Theorem simplifySpec_body_schema (spec out pathItem operation : value)
  (path method r : string) :
  simplifySpec spec = Return out ->
  In (path, pathItem) (own_entries (get spec "paths")) ->
  In (method, operation) (own_entries pathItem) ->
  request_ref operation = VStr r \/ response_ref operation = VStr r ->
  startsWith r schema_prefix = true ->
  truthy (get (get (get spec "components") "schemas") (replace r schema_prefix ""))
  = true ->
  replace r schema_prefix "" <> "__proto__" ->
  In (replace r schema_prefix "") (keys_of (get out "schemas")).
Proof.
  intros H Hp Hm Href Hpre Ht Hproto.
  assert (Hop : Referenced operation (replace r schema_prefix "")).
  { destruct Href as [Hr | Hr].
    - unfold request_ref in Hr. apply Referenced_ref in Hr; [| exact Hpre].
      do 4 apply Referenced_get in Hr. exact Hr.
    - unfold response_ref in Hr. cbv zeta in Hr.
      apply Referenced_ref in Hr; [| exact Hpre].
      do 3 apply Referenced_get in Hr. unfold or_else in Hr.
      destruct (truthy (get (get operation "responses") "200"));
        do 2 apply Referenced_get in Hr; exact Hr. }
  assert (Hpaths : Referenced (get spec "paths") (replace r schema_prefix "")).
  { apply (Referenced_entry _ pathItem path); [exact Hp |].
    exact (Referenced_entry _ operation method _ Hm Hop). }
  apply simplifySpec_inv in H.
  destruct H as [base [endpoints [refs [_ [Hr [_ [Hs H]]]]]]]. cbv zeta in H.
  pose proof (collected_when_referenced spec refs _ Hr Hpaths) as Hin.
  destruct (negb (List.length refs =? 0)%nat
            && truthy (get (get spec "components") "schemas")) eqn:C.
  - destruct H as [compacted [Hc ->]].
    rewrite (get_member _ "schemas" (VObj compacted))
      by (apply assoc_obj_set_same; discriminate).
    apply (schemasOf_keys _ _ _ Hc). auto.
  - apply truthy_get in Ht. rewrite Ht, andb_true_r in C.
    destruct refs; [contradiction Hin | discriminate C].
Qed.

Lemma simplifySpec_body_schema_witness :
  exists out,
    simplifySpec pet_shop = Return out /\
    In "NewPet" (keys_of (get out "schemas")).
Proof.
  destruct (simplifySpec pet_shop) as [out | x] eqn:E;
    [| vm_compute in E; discriminate E].
  exists out. split; [reflexivity |].
  assert (Hn : "NewPet" <> "__proto__") by discriminate.
  exact (simplifySpec_body_schema pet_shop out
           (VObj [("post", create_pet)]) create_pet
           "/shops/{shop}/pets" "post" "#/components/schemas/NewPet"
           E (or_introl eq_refl) (or_introl eq_refl) (or_introl eq_refl)
           eq_refl eq_refl Hn).
Defined.

Lemma mapM_length {A B : Type} (f : A -> result B) (l : list A) (r : list B) :
  mapM f l = Return r -> List.length r = List.length l.
Proof.
  revert r. induction l as [| x l IH]; simpl; intros r H.
  - injection H as <-. reflexivity.
  - returned. subst r. simpl. rewrite (IH a0 Ha0). reflexivity.
Qed.

(** X10. The [pp] of a descriptor holds one string per parameter located
    in the path, in the order of [parameters], each the rendering of that
    parameter by [pathParamStr]; the [qp] does the same for the parameters
    located in the query with [queryParamStr].  A parameter located
    elsewhere ([header], [cookie], [body]) contributes to neither, and a
    descriptor whose operation has no parameter at a place has no member
    for that place. *)
Theorem endpointOf_parameters (method path : string) (operation e : value) :
  endpointOf method path operation = Return e ->
  (if negb (List.length (params_at "path" operation) =? 0)%nat
   then exists strs,
       mapM pathParamStr (params_at "path" operation) = Return strs /\
       List.length strs = List.length (params_at "path" operation) /\
       get e "pp" = VArr (map VStr strs)
   else get e "pp" = VUndefined) /\
  (if negb (List.length (params_at "query" operation) =? 0)%nat
   then exists strs,
       mapM queryParamStr (params_at "query" operation) = Return strs /\
       List.length strs = List.length (params_at "query" operation) /\
       get e "qp" = VArr (map VStr strs)
   else get e "qp" = VUndefined).
Proof.
  intros H. apply endpointOf_members in H.
  destruct H as [o [-> [Hk [_ [_ [Hpp Hqp]]]]]].
  assert (Kpp : In "pp" (map fst o) <->
                negb (List.length (params_at "path" operation) =? 0)%nat = true).
  { rewrite Hk.
    destruct (truthy (description_of operation));
      destruct (negb (List.length (params_at "path" operation) =? 0)%nat);
      destruct (negb (List.length (params_at "query" operation) =? 0)%nat);
      destruct (truthy (request_ref operation));
      destruct (truthy (response_ref operation)); cbn;
      split; intros G; try reflexivity; try discriminate G; auto 10;
      repeat (destruct G as [G | G]; try discriminate G); contradiction G. }
  assert (Kqp : In "qp" (map fst o) <->
                negb (List.length (params_at "query" operation) =? 0)%nat = true).
  { rewrite Hk.
    destruct (truthy (description_of operation));
      destruct (negb (List.length (params_at "path" operation) =? 0)%nat);
      destruct (negb (List.length (params_at "query" operation) =? 0)%nat);
      destruct (truthy (request_ref operation));
      destruct (truthy (response_ref operation)); cbn;
      split; intros G; try reflexivity; try discriminate G; auto 10;
      repeat (destruct G as [G | G]; try discriminate G); contradiction G. }
  rewrite assoc_keys in Kpp, Kqp. split.
  - destruct (negb (List.length (params_at "path" operation) =? 0)%nat).
    + destruct (assoc "pp" o) as [pp |] eqn:E;
        [| exfalso; apply (proj2 Kpp eq_refl); reflexivity].
      destruct (Hpp pp eq_refl) as [strs [Hm ->]]. exists strs.
      split; [exact Hm |]. split; [exact (mapM_length _ _ _ Hm) |].
      exact (get_member o "pp" _ E).
    + apply get_no_member. destruct (assoc "pp" o) eqn:E; [| reflexivity].
      assert (F : false = true) by (apply Kpp; discriminate). discriminate F.
  - destruct (negb (List.length (params_at "query" operation) =? 0)%nat).
    + destruct (assoc "qp" o) as [qp |] eqn:E;
        [| exfalso; apply (proj2 Kqp eq_refl); reflexivity].
      destruct (Hqp qp eq_refl) as [strs [Hm ->]]. exists strs.
      split; [exact Hm |]. split; [exact (mapM_length _ _ _ Hm) |].
      exact (get_member o "qp" _ E).
    + apply get_no_member. destruct (assoc "qp" o) eqn:E; [| reflexivity].
      assert (F : false = true) by (apply Kqp; discriminate). discriminate F.
Qed.

Lemma endpointOf_parameters_witness :
  exists e,
    endpointOf "post" "/shops/{shop}/pets" create_pet = Return e /\
    get e "pp" = VArr [VStr "shop:string"] /\
    get e "qp" = VArr [VStr "dryRun:boolean?"].
Proof.
  destruct (endpointOf "post" "/shops/{shop}/pets" create_pet) as [e | x] eqn:E;
    [| vm_compute in E; discriminate E].
  exists e. split; [reflexivity |].
  destruct (endpointOf_parameters "post" "/shops/{shop}/pets" create_pet e E)
    as [Hp Hq].
  cbn in Hp, Hq.
  destruct Hp as [ps [Hps [_ Hp]]]. destruct Hq as [qs [Hqs [_ Hq]]].
  injection Hps as <-. injection Hqs as <-. split; [exact Hp | exact Hq].
Defined.

(** ** When an operation yields a descriptor, and when it aborts the run *)

Lemma prop_get (v : value) (key : string) :
  nullish v = false -> prop v key = Return (get v key).
Proof. destruct v; intros H; try discriminate H; reflexivity. Qed.

Lemma truthy_not_nullish (v : value) : truthy v = true -> nullish v = false.
Proof. destruct v; intros H; try discriminate H; reflexivity. Qed.

Lemma or_else_object_not_nullish (v : value) :
  nullish (or_else v (VObj [])) = false.
Proof.
  unfold or_else. destruct (truthy v) eqn:E; [| reflexivity].
  exact (truthy_not_nullish v E).
Qed.

Lemma entries_truthy (v : value) (kp : string * value) :
  In kp (own_entries v) -> truthy v = true.
Proof.
  destruct v as [| | b | n | s | xs | kvs]; cbn [own_entries]; intros H;
    try contradiction H; try reflexivity.
  destruct s; [contradiction H | reflexivity].
Qed.

Lemma forEach_throws {A S : Type} (body : S -> A -> result S) (l : list A) (x : A) :
  In x l -> (forall s, exists e, body s x = Throw e) ->
  forall s, exists e, forEach body l s = Throw e.
Proof.
  intros Hin Hx. induction l as [| y l IH]; [contradiction Hin |].
  intros s. cbn [forEach]. destruct Hin as [-> | Hin].
  - destruct (Hx s) as [e ->]. exists e. reflexivity.
  - destruct (body s y) as [s' | e]; cbn [bind].
    + exact (IH Hin s').
    + exists e. reflexivity.
Qed.

(** X11. An operation that is neither [null] nor [undefined] and has no
    truthy [parameters] always yields a descriptor: no shape of its
    summary, request body or responses makes [endpointOf] throw. *)
Theorem endpointOf_without_parameters (method path : string) (operation : value) :
  nullish operation = false ->
  truthy (get operation "parameters") = false ->
  exists e, endpointOf method path operation = Return e.
Proof.
  intros Hn Hp. unfold endpointOf.
  rewrite !(prop_get operation _ Hn). cbn [bind].
  assert (Ht : exists text,
             (if truthy (get operation "summary")
              then Return (get operation "summary")
              else Return (get operation "description")) = Return text).
  { destruct (truthy (get operation "summary")); eexists; reflexivity. }
  destruct Ht as [text ->]. cbn [bind]. rewrite Hp. cbn [bind].
  unfold Object_keys, Object_entries. rewrite or_else_object_not_nullish.
  destruct (truthy (get operation "requestBody")) eqn:Hb.
  - rewrite (prop_get _ "content" (truthy_not_nullish _ Hb)). cbn [bind].
    match goal with
    | |- context [if ?c then Return ?a else Return ?b] => destruct c
    end; cbn [bind]; eexists; reflexivity.
  - cbn [bind]. eexists. reflexivity.
Qed.

Lemma endpointOf_without_parameters_witness :
  exists e,
    endpointOf "get" "/health"
      (VObj [("summary", VNum (Int 7)); ("requestBody", VStr "none");
             ("responses", VArr [VNull])])
    = Return e.
Proof.
  exact (endpointOf_without_parameters "get" "/health"
           (VObj [("summary", VNum (Int 7)); ("requestBody", VStr "none");
                  ("responses", VArr [VNull])])
           eq_refl eq_refl).
Defined.

Lemma endpointOf_nullish (method path : string) (operation : value) :
  nullish operation = true -> exists e, endpointOf method path operation = Throw e.
Proof.
  intros H. unfold endpointOf.
  destruct operation; try discriminate H; cbn [prop bind]; eexists; reflexivity.
Qed.

Lemma endpointOf_parameters_not_array (method path : string) (operation : value) :
  truthy (get operation "parameters") = true ->
  isArray (get operation "parameters") = false ->
  exists e, endpointOf method path operation = Throw e.
Proof.
  intros Ht Ha. unfold endpointOf.
  destruct (nullish operation) eqn:Hn.
  - destruct operation; try discriminate Hn; cbn [prop bind]; eexists; reflexivity.
  - rewrite !(prop_get operation _ Hn). cbn [bind].
    destruct (truthy (get operation "summary")); cbn [bind];
      rewrite Ht; destruct (get operation "parameters"); try discriminate Ha;
      cbn [bind]; eexists; reflexivity.
Qed.

(** X12. One [null] aborts the whole run.  When some path item is [null]
    (or [undefined]), or some operation under a recognized method is, or
    such an operation has a truthy [parameters] that is not an array, then
    [simplifySpec] throws: no descriptor of any other operation is
    produced. *)
Theorem simplifySpec_aborts (spec pathItem : value) (path : string) :
  In (path, pathItem) (own_entries (get spec "paths")) ->
  nullish pathItem = true \/
  (exists method operation,
      In (method, operation) (own_entries pathItem) /\
      includes http_methods method = true /\
      (nullish operation = true \/
       truthy (get operation "parameters") = true /\
       isArray (get operation "parameters") = false)) ->
  exists e, simplifySpec spec = Throw e.
Proof.
  intros Hin Hbad.
  assert (Hitem : forall acc, exists e, operationsOf path pathItem acc = Throw e).
  { intros acc. unfold operationsOf, Object_entries.
    destruct Hbad as [Hn | [method [operation [Hm [Hr Hop]]]]].
    - rewrite Hn. cbn [bind]. eexists. reflexivity.
    - destruct (nullish pathItem) eqn:Hn; cbn [bind]; [eexists; reflexivity |].
      apply (forEach_throws _ _ (method, operation) Hm). intros s.
      cbn [fst snd]. rewrite Hr. cbn [negb].
      assert (Ho : exists e, endpointOf method path operation = Throw e).
      { destruct Hop as [Ho | [Ht Ha]].
        - exact (endpointOf_nullish method path operation Ho).
        - exact (endpointOf_parameters_not_array method path operation Ht Ha). }
      destruct Ho as [e ->]. exists e. reflexivity. }
  assert (Hends : exists e, endpointsOf (get spec "paths") = Throw e).
  { unfold endpointsOf, Object_entries.
    pose proof (entries_truthy _ _ Hin) as Ht. rewrite Ht.
    rewrite (truthy_not_nullish _ Ht). cbn [bind].
    apply (forEach_throws _ _ (path, pathItem) Hin). intros s. exact (Hitem s). }
  unfold simplifySpec. destruct (nullish spec) eqn:Hn.
  - destruct spec; try discriminate Hn; cbn [prop bind]; eexists; reflexivity.
  - rewrite !(prop_get spec _ Hn). cbn [bind].
    destruct Hends as [e He].
    match goal with
    | |- context [if truthy ?s then _ else Return _] =>
        destruct (truthy s) eqn:Hs
    end.
    + unfold Object_keys, Object_entries.
      rewrite (truthy_not_nullish _ Hs). cbn [bind]. rewrite He. cbn [bind].
      exists e. reflexivity.
    + cbn [bind]. rewrite He. cbn [bind]. exists e. reflexivity.
Qed.

Lemma simplifySpec_aborts_witness :
  exists e,
    simplifySpec
      (VObj [("paths",
              VObj [("/pets", VObj [("get", VObj [("summary", VStr "List pets")])]);
                    ("/orders", VNull)])])
    = Throw e.
Proof.
  exact (simplifySpec_aborts
           (VObj [("paths",
                   VObj [("/pets", VObj [("get", VObj [("summary", VStr "List pets")])]);
                         ("/orders", VNull)])])
           VNull "/orders" (or_intror (or_introl eq_refl)) (or_introl eq_refl)).
Defined.

(** ** What [simplifySchema] keeps *)

(** X13. A schema that is not a mapping is returned as it is, except an
    array, which compacts to the empty object: [null], a boolean schema, a
    number or a string pass through unchanged. *)
Theorem simplifySchema_not_a_mapping (schema : value) :
  is_mapping schema = false ->
  simplifySchema schema = Return (if isArray schema then VObj [] else schema).
Proof.
  intros Hm. rewrite simplifySchema_unfold. unfold simplifySchema_body.
  destruct schema as [| | b | n | s | xs | kvs]; try discriminate Hm;
    try reflexivity;
    try (cbn [typeof]; rewrite orb_true_r; reflexivity).
  change (negb (truthy (VArr xs)) || negb (typeof (VArr xs) =? "object"))
    with false. cbv iota zeta.
  rewrite (get_not_mapping (VArr xs) "type" eq_refl eq_refl),
    (get_not_mapping (VArr xs) "format" eq_refl eq_refl),
    (get_not_mapping (VArr xs) "enum" eq_refl eq_refl),
    (get_not_mapping (VArr xs) "required" eq_refl eq_refl),
    (get_not_mapping (VArr xs) "$ref" eq_refl eq_refl),
    (get_not_mapping (VArr xs) "properties" eq_refl eq_refl),
    (get_not_mapping (VArr xs) "items" eq_refl eq_refl).
  reflexivity.
Qed.

Lemma simplifySchema_not_a_mapping_witness :
  simplifySchema (VArr [VObj [("type", VStr "string")]]) = Return (VObj []) /\
  simplifySchema (VBool true) = Return (VBool true).
Proof.
  split.
  - exact (simplifySchema_not_a_mapping (VArr [VObj [("type", VStr "string")]])
             eq_refl).
  - exact (simplifySchema_not_a_mapping (VBool true) eq_refl).
Defined.

(** The stages of [simplifySchema] on a mapping that does not reduce to a
    type string. *)
Lemma simplifySchema_stages (kvs : list (string * value)) (r : value) :
  simplifySchema (VObj kvs) = Return r ->
  reduces (VObj kvs) = false ->
  let schema := VObj kvs in
  let s1 := if truthy (get schema "type")
            then obj_set [] "type" (get schema "type") else [] in
  let s2 := if truthy (get schema "format")
            then obj_set s1 "format" (get schema "format") else s1 in
  let s3 := if truthy (get schema "enum")
            then obj_set s2 "enum" (get schema "enum") else s2 in
  let s4 := if truthy (get schema "required")
            then obj_set s3 "required" (get schema "required") else s3 in
  let s5 := if truthy (get schema "$ref")
            then obj_set s4 "$ref" (cleanSchemaRef (get schema "$ref")) else s4 in
  exists s6 s7,
    (if truthy (get schema "properties")
     then exists props,
         forEach
           (fun props kp =>
              simplifiedProp <- simplifySchema (snd kp) ;;
              Return (simplifyProperty props (fst kp) simplifiedProp))
           (own_entries (get schema "properties")) [] = Return props /\
         s6 = obj_set s5 "properties" (VObj props)
     else s6 = s5) /\
    (if truthy (get schema "items")
     then exists items,
         simplifySchema (get schema "items") = Return items /\
         s7 = obj_set s6 "items" items
     else s7 = s6) /\
    r = VObj s7.
Proof.
  intros H R. rewrite simplifySchema_unfold in H. unfold simplifySchema_body in H.
  change (negb (truthy (VObj kvs)) || negb (typeof (VObj kvs) =? "object"))
    with false in H. cbv iota zeta in H.
  unfold reduces, keys_of in R. apply orb_false_iff in R. destruct R as [R1 R2].
  rewrite R1, R2 in H. cbv zeta.
  apply bind_Return in H. destruct H as [s6 [H6 H]].
  apply bind_Return in H. destruct H as [s7 [H7 H]].
  injection H as <-. exists s6, s7. split; [| split; [| reflexivity]].
  - destruct (truthy (get (VObj kvs) "properties")).
    + apply bind_Return in H6. destruct H6 as [props [Hp H6]].
      injection H6 as <-. exists props. split; [exact Hp | reflexivity].
    + injection H6 as <-. reflexivity.
  - destruct (truthy (get (VObj kvs) "items")).
    + apply bind_Return in H7. destruct H7 as [items [Hi H7]].
      injection H7 as <-. exists items. split; [exact Hi | reflexivity].
    + injection H7 as <-. reflexivity.
Qed.

(** X14. On a mapping that does not reduce to a type string, the result
    holds exactly the members among [type], [format], [enum], [required],
    [$ref], [properties] and [items] that are truthy in the schema, in that
    order; every other member of the schema ([description], [nullable],
    [allOf], [additionalProperties], ...) is dropped.  [type], [format],
    [enum] and [required] are kept as they are, [$ref] is cleaned, and
    [items] is the compaction of the items. *)
Theorem simplifySchema_kept_members (kvs : list (string * value)) (r : value) :
  simplifySchema (VObj kvs) = Return r ->
  reduces (VObj kvs) = false ->
  keys_of r = filter (fun k => truthy (get (VObj kvs) k)) essential_fields /\
  (forall k, In k ["type"; "format"; "enum"; "required"] ->
             truthy (get (VObj kvs) k) = true -> get r k = get (VObj kvs) k) /\
  (truthy (get (VObj kvs) "$ref") = true ->
   get r "$ref" = cleanSchemaRef (get (VObj kvs) "$ref")) /\
  (truthy (get (VObj kvs) "items") = true ->
   simplifySchema (get (VObj kvs) "items") = Return (get r "items")).
Proof.
  intros H R. destruct (simplifySchema_stages kvs r H R) as [s6 [s7 [H6 [H7 ->]]]].
  unfold essential_fields. cbn [filter].
  destruct (truthy (get (VObj kvs) "type")) eqn:E1;
    destruct (truthy (get (VObj kvs) "format")) eqn:E2;
    destruct (truthy (get (VObj kvs) "enum")) eqn:E3;
    destruct (truthy (get (VObj kvs) "required")) eqn:E4;
    destruct (truthy (get (VObj kvs) "$ref")) eqn:E5;
    destruct (truthy (get (VObj kvs) "properties")) eqn:E6;
    destruct (truthy (get (VObj kvs) "items")) eqn:E7;
    match type of H6 with
    | ex _ => destruct H6 as [props [_ H6]]
    | _ => idtac
    end;
    match type of H7 with
    | ex _ => destruct H7 as [items [Hi H7]]
    | _ => idtac
    end;
    subst s6; subst s7;
    (split; [reflexivity |]);
    (split;
     [intros k Hk Ht;
      repeat (destruct Hk as [<- | Hk]; [try reflexivity; congruence |]);
      contradiction Hk |]);
    (split; [intros Ht; try reflexivity; discriminate Ht |]);
    intros Ht; try discriminate Ht; rewrite Hi; reflexivity.
Qed.

Lemma simplifySchema_kept_members_witness :
  exists r,
    simplifySchema annotated_schema = Return r /\
    keys_of r = ["type"; "required"; "properties"].
Proof.
  destruct (simplifySchema annotated_schema) as [r | x] eqn:E;
    [| vm_compute in E; discriminate E].
  exists r. split; [reflexivity |].
  exact (proj1 (simplifySchema_kept_members _ r E eq_refl)).
Defined.

Lemma simplifyProperty_listed (props : list (string * value)) (key : string)
  (compacted : value) :
  exists v, simplifyProperty props key compacted
            = obj_set props (listed_as key compacted) v.
Proof. destruct compacted; eexists; reflexivity. Qed.

Lemma properties_keys (l : list (string * value)) :
  forall acc props,
    forEach
      (fun props kp =>
         simplifiedProp <- simplifySchema (snd kp) ;;
         Return (simplifyProperty props (fst kp) simplifiedProp))
      l acc = Return props ->
    (forall key, In key (map fst acc) -> In key (map fst props)) /\
    (forall k p, In (k, p) l ->
       exists sp, simplifySchema p = Return sp /\
                  (listed_as k sp = "__proto__" \/
                   In (listed_as k sp) (map fst props))) /\
    (forall key, In key (map fst props) ->
       In key (map fst acc) \/
       exists k p sp, In (k, p) l /\ simplifySchema p = Return sp /\
                      key = listed_as k sp).
Proof.
  induction l as [| [k0 p0] l IH]; intros acc props H; cbn [forEach] in H.
  - injection H as <-. split; [auto |]. split; [intros k p [] | auto].
  - apply bind_Return in H. destruct H as [acc1 [H1 H]].
    cbn [fst snd] in H1. apply bind_Return in H1. destruct H1 as [sp0 [Hs H1]].
    injection H1 as <-.
    destruct (simplifyProperty_listed acc k0 sp0) as [v Hv]. rewrite Hv in H.
    destruct (IH _ _ H) as [I1 [I2 I3]]. split; [| split].
    + intros key Hk. apply I1. apply keys_obj_set. left. exact Hk.
    + intros k p [E | Hin].
      * injection E as <- <-. exists sp0. split; [exact Hs |].
        destruct (String.eqb_spec (listed_as k0 sp0) "__proto__") as [E | E];
          [left; exact E | right].
        apply I1. apply keys_obj_set. right. split; [reflexivity | exact E].
      * exact (I2 k p Hin).
    + intros key Hk. destruct (I3 key Hk) as [Ha | [k [p [sp [Hin [Hsp E]]]]]].
      * apply keys_obj_set in Ha. destruct Ha as [Ha | [-> _]]; [left; exact Ha |].
        right. exists k0, p0, sp0. split; [left; reflexivity |]. auto.
      * right. exists k, p, sp. split; [right; exact Hin |]. auto.
Qed.

(** X15. On a mapping that does not reduce to a type string and has a
    truthy [properties], the [properties] of the result lists every
    property under the name [type key] when its compaction is the string
    [type], and under its own key otherwise (a key [__proto__] is lost);
    and it lists nothing else.  The names in a kept [required] list are not
    rewritten with it. *)
Theorem simplifySchema_properties (kvs : list (string * value)) (r : value) :
  simplifySchema (VObj kvs) = Return r ->
  reduces (VObj kvs) = false ->
  truthy (get (VObj kvs) "properties") = true ->
  (forall k p,
      In (k, p) (own_entries (get (VObj kvs) "properties")) ->
      exists sp, simplifySchema p = Return sp /\
                 (listed_as k sp = "__proto__" \/
                  In (listed_as k sp) (keys_of (get r "properties")))) /\
  (forall key,
      In key (keys_of (get r "properties")) ->
      exists k p sp,
        In (k, p) (own_entries (get (VObj kvs) "properties")) /\
        simplifySchema p = Return sp /\ key = listed_as k sp).
Proof.
  intros H R Ht. destruct (simplifySchema_stages kvs r H R) as [s6 [s7 [H6 [H7 ->]]]].
  rewrite Ht in H6. destruct H6 as [props [Hp H6]].
  assert (G : get (VObj s7) "properties" = VObj props).
  { apply get_member.
    assert (G6 : assoc "properties" s6 = Some (VObj props)).
    { rewrite H6. apply assoc_obj_set_same. discriminate. }
    destruct (truthy (get (VObj kvs) "items")).
    - destruct H7 as [items [_ ->]]. rewrite assoc_obj_set_other; [exact G6 |].
      discriminate.
    - rewrite H7. exact G6. }
  rewrite G. unfold keys_of. cbn [own_entries].
  destruct (properties_keys _ _ _ Hp) as [_ [I2 I3]]. split; [exact I2 |].
  intros key Hk. destruct (I3 key Hk) as [[] | Hex]. exact Hex.
Qed.

Lemma simplifySchema_properties_witness :
  exists r,
    simplifySchema annotated_schema = Return r /\
    In "integer(int64) id" (keys_of (get r "properties")) /\
    get r "required" = VArr [VStr "id"].
Proof.
  destruct (simplifySchema annotated_schema) as [r | x] eqn:E;
    [| vm_compute in E; discriminate E].
  exists r. split; [reflexivity |].
  destruct (proj1 (simplifySchema_properties _ r E eq_refl eq_refl)
              "id" (VObj [("type", VStr "integer"); ("format", VStr "int64")])
              (or_introl eq_refl)) as [sp [Hs [Hl | Hl]]];
    injection Hs as <-; [discriminate Hl |].
  split; [exact Hl |]. injection E as <-. reflexivity.
Defined.

(** ** When [simplifySchema] returns *)

Lemma ToString_array (xs : list value) :
  (forall x, In x xs -> exists s, ToString x = Return s) ->
  exists s, ToString (VArr xs) = Return s.
Proof.
  induction xs as [| x l IH]; intros Hx.
  - exists "". reflexivity.
  - assert (H1 : exists s, (if nullish x then Return "" else ToString x) = Return s).
    { destruct (nullish x); [exists ""; reflexivity |].
      apply Hx. left. reflexivity. }
    destruct H1 as [s Hs]. destruct l as [| y l'].
    + change (ToString (VArr [x]))
        with (s <- (if nullish x then Return "" else ToString x) ;; Return s).
      rewrite Hs. exists s. reflexivity.
    + change (ToString (VArr (x :: y :: l')))
        with (s <- (if nullish x then Return "" else ToString x) ;;
              r <- ToString (VArr (y :: l')) ;; Return (s ++ "," ++ r)).
      rewrite Hs. destruct (IH (fun z Hz => Hx z (or_intror Hz))) as [r Hr].
      cbn [bind]. rewrite Hr. eexists. reflexivity.
Qed.

Lemma ToString_printable :
  forall n v, depth v < n -> printable v = true -> exists s, ToString v = Return s.
Proof.
  induction n as [| n IH]; intros v Hd Hp; [lia |].
  destruct v as [| | b | m | s | xs | kvs]; try (eexists; reflexivity).
  - destruct b; eexists; reflexivity.
  - apply ToString_array. intros x Hx. apply IH.
    + pose proof (depth_element xs x Hx). lia.
    + cbn [printable] in Hp. rewrite forallb_forall in Hp. exact (Hp x Hx).
  - cbn [printable] in Hp. cbn [ToString].
    destruct (assoc "toString" kvs); [discriminate Hp | eexists; reflexivity].
Qed.

Lemma printable_types_entry (v : value) (kp : string * value) :
  In kp (own_entries v) -> printable_types v = true ->
  printable_types (snd kp) = true.
Proof.
  intros Hin Hp. destruct v as [| | b | n | s | xs | kvs];
    cbn [own_entries] in Hin; try contradiction Hin.
  - assert (Hs : In (snd kp) (code_units s)).
    { rewrite <- (indexed_values (code_units s) 0). apply in_map. exact Hin. }
    unfold code_units in Hs. apply in_map_iff in Hs. destruct Hs as [c [<- _]].
    reflexivity.
  - assert (Hs : In (snd kp) xs).
    { rewrite <- (indexed_values xs 0). apply in_map. exact Hin. }
    cbn [printable_types] in Hp. rewrite forallb_forall in Hp. exact (Hp _ Hs).
  - cbn [printable_types] in Hp. apply andb_true_iff in Hp. destruct Hp as [_ Hp].
    rewrite forallb_forall in Hp. exact (Hp kp Hin).
Qed.

Lemma printable_types_get (v : value) (key : string) :
  printable_types v = true -> printable_types (get v key) = true.
Proof.
  intros Hp. unfold get. destruct (assoc key (own_entries v)) as [x |] eqn:E.
  - apply assoc_In in E. destruct E as [k Hk].
    exact (printable_types_entry v (k, x) Hk Hp).
  - destruct v; try reflexivity; destruct (key =? "length"); reflexivity.
Qed.

Lemma printable_member (v : value) (key : string) :
  printable_types v = true -> is_name key = true ->
  key = "type" \/ key = "format" -> printable (get v key) = true.
Proof.
  intros Hp Hn Hk. destruct (is_mapping v) eqn:Hm.
  - destruct v; try discriminate Hm. cbn [printable_types] in Hp.
    apply andb_true_iff in Hp. destruct Hp as [Hp _].
    apply andb_true_iff in Hp. destruct Hp as [Ht Hf].
    destruct Hk as [-> | ->]; assumption.
  - rewrite (get_not_mapping v key Hm Hn). reflexivity.
Qed.

Lemma forEach_returns {A S : Type} (body : S -> A -> result S) (l : list A) :
  (forall s x, In x l -> exists s', body s x = Return s') ->
  forall s, exists s', forEach body l s = Return s'.
Proof.
  induction l as [| x l IH]; intros Hb s; cbn [forEach].
  - exists s. reflexivity.
  - destruct (Hb s x (or_introl eq_refl)) as [s1 ->]. cbn [bind].
    apply IH. intros s2 y Hy. apply Hb. right. exact Hy.
Qed.

Lemma simplifySchema_returns :
  forall n schema,
    depth schema < n -> printable_types schema = true ->
    exists r, simplifySchema schema = Return r.
Proof.
  induction n as [| n IH]; intros schema Hd Hp; [lia |].
  rewrite simplifySchema_unfold. unfold simplifySchema_body.
  destruct (negb (truthy schema) || negb (typeof schema =? "object")) eqn:C;
    [eexists; reflexivity |].
  cbv zeta.
  destruct (truthy (get schema "type")
            && (List.length (map fst (own_entries schema)) =? 1)%nat);
    [eexists; reflexivity |].
  destruct (truthy (get schema "type") && truthy (get schema "format")
            && (List.length (map fst (own_entries schema)) =? 2)%nat).
  { destruct (ToString_printable _ _ (Nat.lt_succ_diag_r _)
                (printable_member schema "type" Hp eq_refl (or_introl eq_refl)))
      as [t ->].
    destruct (ToString_printable _ _ (Nat.lt_succ_diag_r _)
                (printable_member schema "format" Hp eq_refl (or_intror eq_refl)))
      as [f ->].
    eexists. reflexivity. }
  match goal with
  | |- context [obj_set ?s "properties"] => generalize s
  end.
  intros s5.
  assert (Hprops : exists props,
             forEach
               (fun props kp =>
                  simplifiedProp <- simplifySchema (snd kp) ;;
                  Return (simplifyProperty props (fst kp) simplifiedProp))
               (own_entries (get schema "properties")) [] = Return props).
  { apply forEach_returns. intros s kp Hin.
    destruct (IH (snd kp)) as [sp ->].
    - pose proof (depth_entry _ _ Hin). pose proof (depth_get schema "properties" C).
      lia.
    - apply (printable_types_entry _ _ Hin). apply printable_types_get. exact Hp.
    - eexists. reflexivity. }
  destruct Hprops as [props ->].
  assert (Hitems : exists items, simplifySchema (get schema "items") = Return items).
  { apply IH.
    - pose proof (depth_get schema "items" C). lia.
    - apply printable_types_get. exact Hp. }
  destruct Hitems as [items ->].
  destruct (truthy (get schema "properties")); cbn [bind];
    destruct (truthy (get schema "items")); cbn [bind]; eexists; reflexivity.
Qed.

(** X16. [simplifySchema] returns on every schema in which the [type] and
    the [format] of every mapping can be converted to a string: in
    particular on every schema whose types and formats are strings,
    numbers, booleans or lists of those. *)
Theorem simplifySchema_total (schema : value) :
  printable_types schema = true -> exists r, simplifySchema schema = Return r.
Proof.
  intros Hp. exact (simplifySchema_returns (S (depth schema)) schema
                      (Nat.lt_succ_diag_r _) Hp).
Qed.

Lemma simplifySchema_total_witness :
  exists r, simplifySchema nullable_date = Return r.
Proof. exact (simplifySchema_total nullable_date eq_refl). Defined.

Lemma ToString_array_throws (xs : list value) :
  (exists x, In x xs /\ nullish x = false /\ exists e, ToString x = Throw e) ->
  exists e, ToString (VArr xs) = Throw e.
Proof.
  induction xs as [| x l IH]; intros [z [Hin [Hn [e He]]]]; [contradiction Hin |].
  destruct l as [| y l'].
  - destruct Hin as [-> | []].
    change (ToString (VArr [z]))
      with (s <- (if nullish z then Return "" else ToString z) ;; Return s).
    rewrite Hn, He. exists e. reflexivity.
  - change (ToString (VArr (x :: y :: l')))
      with (s <- (if nullish x then Return "" else ToString x) ;;
            r <- ToString (VArr (y :: l')) ;; Return (s ++ "," ++ r)).
    destruct Hin as [-> | Hin].
    + rewrite Hn, He. exists e. reflexivity.
    + destruct (IH (ex_intro _ z (conj Hin (conj Hn (ex_intro _ e He)))))
        as [e' He'].
      destruct (if nullish x then Return "" else ToString x) as [s | e1];
        cbn [bind]; [rewrite He'; exists e' | exists e1]; reflexivity.
Qed.

Lemma ToString_unprintable :
  forall n v, depth v < n -> printable v = false -> exists e, ToString v = Throw e.
Proof.
  induction n as [| n IH]; intros v Hd Hp; [lia |].
  destruct v as [| | b | m | s | xs | kvs]; try discriminate Hp.
  - apply ToString_array_throws. cbn [printable] in Hp.
    assert (Hx : exists x, In x xs /\ printable x = false).
    { clear Hd. induction xs as [| x l IHl]; [discriminate Hp |].
      cbn [forallb] in Hp. destruct (printable x) eqn:E.
      - destruct (IHl Hp) as [z [Hz Hpz]]. exists z. split; [right; exact Hz | exact Hpz].
      - exists x. split; [left; reflexivity | exact E]. }
    destruct Hx as [x [Hin Hpx]]. exists x. split; [exact Hin |].
    split; [destruct x; try reflexivity; discriminate Hpx |].
    apply IH; [| exact Hpx]. pose proof (depth_element xs x Hin). lia.
  - cbn [printable] in Hp. cbn [ToString].
    destruct (assoc "toString" kvs); [eexists; reflexivity | discriminate Hp].
Qed.

(** X17. [simplifySchema] throws on a mapping with exactly two members, a
    truthy [type] and a truthy [format], when one of the two cannot be
    converted to a string, as when it is a mapping with a member named
    [toString]: the type string [type(format)] cannot be built. *)
Theorem simplifySchema_unprintable (kvs : list (string * value)) :
  List.length kvs = 2 ->
  truthy (get (VObj kvs) "type") = true ->
  truthy (get (VObj kvs) "format") = true ->
  printable (get (VObj kvs) "type") && printable (get (VObj kvs) "format") = false ->
  exists e, simplifySchema (VObj kvs) = Throw e.
Proof.
  intros Hl Ht Hf Hp. rewrite simplifySchema_unfold. unfold simplifySchema_body.
  change (negb (truthy (VObj kvs)) || negb (typeof (VObj kvs) =? "object"))
    with false. cbv iota zeta. cbn [own_entries].
  rewrite Ht, Hf, length_map, Hl. cbn [Nat.eqb andb].
  destruct (printable (get (VObj kvs) "type")) eqn:P1.
  - destruct (ToString_printable _ _ (Nat.lt_succ_diag_r _) P1) as [t ->].
    cbn [andb] in Hp.
    destruct (ToString_unprintable _ _ (Nat.lt_succ_diag_r _) Hp) as [e ->].
    exists e. reflexivity.
  - destruct (ToString_unprintable _ _ (Nat.lt_succ_diag_r _) P1) as [e ->].
    exists e. reflexivity.
Qed.

Lemma simplifySchema_unprintable_witness :
  exists e, simplifySchema unprintable_type = Throw e.
Proof.
  exact (simplifySchema_unprintable
           [("type", VObj [("toString", VStr "shadow")]); ("format", VStr "date")]
           eq_refl eq_refl eq_refl eq_refl).
Defined.

(** ** The form of a description *)

Lemma single_spaced_collapsed (s : string) :
  forall b, single_spaced_from b (replace_whitespace_runs_from b s) = true.
Proof.
  induction s as [| c s IH]; intros b; cbn [replace_whitespace_runs_from].
  - reflexivity.
  - destruct (is_whitespace c) eqn:Hc.
    + destruct b; [apply IH |].
      cbn [single_spaced_from]. change (is_whitespace " ") with true.
      cbv iota. rewrite IH. reflexivity.
    + cbn [single_spaced_from]. rewrite Hc. apply IH.
Qed.

Lemma single_spaced_weaken (s : string) :
  single_spaced_from true s = true -> single_spaced_from false s = true.
Proof.
  destruct s as [| c s]; [reflexivity |]. cbn [single_spaced_from].
  destruct (is_whitespace c); [| auto].
  rewrite andb_false_r. intros H. discriminate H.
Qed.

Lemma trimStart_single_spaced (s : string) :
  single_spaced_from true s = true -> trimStart s = s.
Proof.
  destruct s as [| c s]; [reflexivity |]. cbn [single_spaced_from trimStart].
  destruct (is_whitespace c); [| reflexivity].
  rewrite andb_false_r. intros H. discriminate H.
Qed.

Lemma single_spaced_trimStart (s : string) :
  single_spaced_from false s = true -> single_spaced_from true (trimStart s) = true.
Proof.
  destruct s as [| c s]; [reflexivity |]. cbn [single_spaced_from trimStart].
  destruct (is_whitespace c) eqn:Hc.
  - intros H. apply andb_true_iff in H. destruct H as [_ H].
    rewrite (trimStart_single_spaced s H). exact H.
  - cbn [single_spaced_from]. rewrite Hc. auto.
Qed.

Lemma single_spaced_trimEnd (s : string) :
  forall b, single_spaced_from b s = true -> single_spaced_from b (trimEnd s) = true.
Proof.
  induction s as [| c s IH]; intros b H; [reflexivity |].
  cbn [trimEnd]. cbn [single_spaced_from] in H.
  destruct (trimEnd s) as [| c' t] eqn:E.
  - destruct (is_whitespace c) eqn:Hc; [reflexivity |].
    cbn [single_spaced_from]. rewrite Hc. reflexivity.
  - cbn [single_spaced_from]. fold single_spaced_from.
    destruct (is_whitespace c).
    + apply andb_true_iff in H. destruct H as [H1 H2].
      rewrite H1. exact (IH true H2).
    + exact (IH false H).
Qed.

Lemma ends_blank_trimEnd (s : string) : ends_blank (trimEnd s) = false.
Proof.
  induction s as [| c s IH]; [reflexivity |]. cbn [trimEnd].
  destruct (trimEnd s) as [| c' t].
  - destruct (is_whitespace c) eqn:Hc; [reflexivity | exact Hc].
  - exact IH.
Qed.

Lemma tidy_cleaned (d : string) : tidy (trim (replace_whitespace_runs d)) = true.
Proof.
  unfold tidy, trim, replace_whitespace_runs.
  rewrite ends_blank_trimEnd, andb_true_r.
  apply single_spaced_trimEnd. apply single_spaced_trimStart.
  apply single_spaced_collapsed.
Qed.

Lemma single_spaced_cut (n : nat) :
  forall s b, single_spaced_from b s = true ->
              single_spaced_from b (substring 0 n s ++ "...") = true.
Proof.
  induction n as [| n IH]; intros s b H.
  - destruct s; destruct b; reflexivity.
  - destruct s as [| c s]; [destruct b; reflexivity |].
    cbn [substring append single_spaced_from] in *.
    destruct (is_whitespace c).
    + apply andb_true_iff in H. destruct H as [H1 H2].
      rewrite H1. exact (IH s true H2).
    + exact (IH s false H).
Qed.

Lemma ends_blank_marked (p : string) : ends_blank (p ++ "...") = false.
Proof.
  induction p as [| c p IH]; [reflexivity |].
  cbn [append]. destruct p as [| c' p]; [reflexivity | exact IH].
Qed.

Lemma collapse_single_spaced (s : string) :
  forall b, single_spaced_from b s = true -> replace_whitespace_runs_from b s = s.
Proof.
  induction s as [| c s IH]; intros b H; [reflexivity |].
  cbn [single_spaced_from] in H. cbn [replace_whitespace_runs_from].
  destruct (is_whitespace c).
  - apply andb_true_iff in H. destruct H as [H1 H2].
    apply andb_true_iff in H1. destruct H1 as [Hc Hb].
    apply negb_true_iff in Hb. subst b. rewrite (IH true H2).
    apply Nat.eqb_eq in Hc.
    assert (E : c = " "%char).
    { rewrite <- (ascii_nat_embedding c), Hc. reflexivity. }
    rewrite E. reflexivity.
  - rewrite (IH false H). reflexivity.
Qed.

Lemma trimEnd_not_blank (s : string) : ends_blank s = false -> trimEnd s = s.
Proof.
  induction s as [| c s IH]; [reflexivity |]. intros H. cbn [trimEnd].
  destruct s as [| c' s'].
  - cbn [ends_blank] in H. cbn [trimEnd]. rewrite H. reflexivity.
  - rewrite (IH H). reflexivity.
Qed.

Lemma cleaned_tidy (r : string) :
  tidy r = true -> trim (replace_whitespace_runs r) = r.
Proof.
  unfold tidy. intros H. apply andb_true_iff in H. destruct H as [H1 H2].
  apply negb_true_iff in H2. unfold replace_whitespace_runs, trim.
  rewrite (collapse_single_spaced r false (single_spaced_weaken r H1)).
  rewrite (trimStart_single_spaced r H1). exact (trimEnd_not_blank r H2).
Qed.

Lemma substring_app (p q : string) : substring 0 (String.length p) (p ++ q) = p.
Proof.
  induction p as [| c p IH]; cbn [String.length append substring].
  - destruct q; reflexivity.
  - rewrite IH. reflexivity.
Qed.

Lemma truncated_tidy (desc : value) (maxLength : nat) (r : string) :
  truncateDescription desc maxLength = VStr r -> tidy r = true.
Proof.
  unfold truncateDescription. destruct desc as [| | b | n | d | xs | kvs];
    try discriminate.
  destruct (negb (truthy (VStr d))); [discriminate |]. cbv zeta.
  pose proof (tidy_cleaned d) as Ht.
  destruct (String.length (trim (replace_whitespace_runs d)) <=? maxLength)%nat;
    intros H; injection H as <-; [exact Ht |].
  unfold tidy in *. apply andb_true_iff in Ht. destruct Ht as [H1 _].
  rewrite (single_spaced_cut maxLength _ true H1), ends_blank_marked. reflexivity.
Qed.

(** X18. Whatever string [truncateDescription] returns is tidy: it has no
    white space at either end, and inside it no white space other than
    single spaces; this holds for the truncated results too, whose marker
    follows the cut directly. *)
Theorem truncateDescription_tidy (desc : value) (maxLength : nat) (r : string) :
  truncateDescription desc maxLength = VStr r -> tidy r = true.
Proof. exact (truncated_tidy desc maxLength r). Qed.

Lemma truncateDescription_tidy_witness :
  tidy "List all pets" = true.
Proof.
  exact (truncateDescription_tidy
           (VStr (String (ascii_of_nat 9) "List  all" ++ String (ascii_of_nat 10) "pets "))
           100 "List all pets" eq_refl).
Defined.

(** X19. Truncation is idempotent on what it produces: a non-empty result
    of [truncateDescription], truncated or not, is returned unchanged when
    it is given to [truncateDescription] again with the same cap.  (The
    empty result of a blank description is not: given again, it yields
    [undefined].) *)
Theorem truncateDescription_idempotent (desc : value) (maxLength : nat) (r : string) :
  truncateDescription desc maxLength = VStr r ->
  r <> "" ->
  truncateDescription (VStr r) maxLength = VStr r /\
  truncateDescription (VStr "") maxLength = VUndefined.
Proof.
  intros H Hr. split; [| reflexivity].
  pose proof (truncated_tidy desc maxLength r H) as Ht.
  unfold truncateDescription at 1. cbn [truthy].
  destruct r as [| c r']; [contradiction Hr; reflexivity |].
  cbn [String.eqb negb]. cbv zeta. rewrite (cleaned_tidy _ Ht).
  destruct (String.length (String c r') <=? maxLength)%nat eqn:L; [reflexivity |].
  apply Nat.leb_gt in L.
  unfold truncateDescription in H. destruct desc as [| | b | n | d | xs | kvs];
    try discriminate H.
  destruct (negb (truthy (VStr d))); [discriminate H |]. cbv zeta in H.
  destruct (String.length (trim (replace_whitespace_runs d)) <=? maxLength)%nat eqn:L';
    injection H as H.
  - apply Nat.leb_le in L'. rewrite H in L'. lia.
  - apply Nat.leb_gt in L'. rewrite <- H at 1.
    pose proof (length_substring maxLength (trim (replace_whitespace_runs d))
                  (Nat.lt_le_incl _ _ L')) as Hl.
    rewrite <- Hl at 1. rewrite substring_app. rewrite H. reflexivity.
Qed.

Lemma truncateDescription_idempotent_witness :
  truncateDescription (VStr "List all pets") 100 = VStr "List all pets".
Proof.
  assert (Hn : "List all pets" <> "") by discriminate.
  exact (proj1 (truncateDescription_idempotent
                  (VStr ("List  all" ++ String (ascii_of_nat 10) "pets "))
                  100 "List all pets" eq_refl Hn)).
Defined.

(** ** What the collector reads *)


